(** * scripts/updateLicense.py: the Go license-header normalizer

    A shallow embedding of [update_go_license] and of the module-level
    constants it reads, followed by the properties of the header
    normalization procedure.

    Modelling conventions.
    - A Python [str] is a [string]; its characters are [ascii], so the
      development covers text whose code points are below 256.  In that
      range [re.I] folds exactly the ASCII letters, [\d] is ['0'..'9'] and
      [str.strip] removes the code points listed in [isspace].
    - The file system is a finite map from paths to decoded file contents;
      standard output is the list of lines printed so far.  The files of
      a world are regular text files that can be opened, decoded and
      written: of the errors of [open] the missing path is the one the
      world can show, and no statement speaks of the others.
    - [open(name)] reads in text mode with universal newlines; the write
      side is the POSIX one, where ['\n'] is written as it is.
    - [int] is CPython's conversion of a digit string, which (since
      3.11, and in the later releases of 3.7 to 3.10) raises [ValueError]
      on more than [sys.int_info.default_max_str_digits] digits.
    - [CURRENT_YEAR] is [datetime.today().year], a number from 1 to 9999.
      The definitions take any natural number for it; a property that
      holds only for a year that [int] converts has the bound 9999 as a
      hypothesis. *)

From Stdlib Require Import NArith Ascii String Decimal DecimalString DecimalPos
  DecimalN.
From stdpp Require Import gmap strings list.

(** ** Characters *)

Definition LF : ascii := "010"%char.
Definition CR : ascii := "013"%char.
Definition DQUOTE : ascii := "034"%char.

Definition nl : string := String LF EmptyString.

(** [str.isdigit] on one character, as [\d] sees it. *)
Definition isdigit (c : ascii) : bool :=
  let n := N_of_ascii c in ((48 <=? n) && (n <=? 57))%N.

(** The case folding [re.I] applies to both the pattern and the subject
    character. *)
Definition lower (c : ascii) : ascii :=
  let n := N_of_ascii c in
  if ((65 <=? n) && (n <=? 90))%N then ascii_of_N (n + 32) else c.

(** [str.isspace] on one character. *)
Definition isspace (c : ascii) : bool :=
  let n := N_of_ascii c in
  ((9 <=? n) && (n <=? 13) || (28 <=? n) && (n <=? 32)
   || (n =? 133) || (n =? 160))%N.

(** ** String primitives *)

(** [p] is a prefix of [s], character by character under [f]. *)
Fixpoint prefix_by (f : ascii -> ascii) (p s : string) : option string :=
  match p with
  | EmptyString => Some s
  | String a p' =>
      match s with
      | EmptyString => None
      | String b s' =>
          if Ascii.eqb (f a) (f b) then prefix_by f p' s' else None
      end
  end.

(** [t in s] *)
Fixpoint contains (t s : string) : bool :=
  match prefix_by id t s with
  | Some _ => true
  | None =>
      match s with
      | EmptyString => false
      | String _ s' => contains t s'
      end
  end.

(** [s.split('\n')] *)
Fixpoint split_nl (s : string) : list string :=
  match s with
  | EmptyString => [EmptyString]
  | String c s' =>
      if Ascii.eqb c LF then EmptyString :: split_nl s'
      else match split_nl s' with
           | l :: ls => String c l :: ls
           | [] => [String c EmptyString]
           end
  end.

Fixpoint lstrip (s : string) : string :=
  match s with
  | EmptyString => EmptyString
  | String c s' => if isspace c then lstrip s' else s
  end.

Fixpoint rstrip (s : string) : string :=
  match s with
  | EmptyString => EmptyString
  | String c s' =>
      match rstrip s' with
      | EmptyString => if isspace c then EmptyString else String c EmptyString
      | r => String c r
      end
  end.

(** [s.strip()] *)
Definition strip (s : string) : string := rstrip (lstrip s).

(** The longest run of digits at the start of [s], and the rest. *)
Fixpoint span_digits (s : string) : string * string :=
  match s with
  | EmptyString => (EmptyString, EmptyString)
  | String c s' =>
      if isdigit c then
        let '(d, r) := span_digits s' in (String c d, r)
      else (EmptyString, s)
  end.

(** The number a string of decimal digits denotes. *)
Definition int_value (d : string) : N :=
  fold_left (fun acc c => (10 * acc + (N_of_ascii c - 48))%N)
            (list_ascii_of_string d) 0%N.

(** ['%d' % n] *)
Definition format_d (n : N) : string :=
  NilEmpty.string_of_uint (N.to_uint n).

(** The one-character strings of [s]: what iterating over a [str] yields. *)
Fixpoint chars (s : string) : list string :=
  match s with
  | EmptyString => []
  | String c s' => String c EmptyString :: chars s'
  end.

(** [for line in lines: f.write(line)]: what the loop leaves in a file
    opened with ['w']. *)
Fixpoint write_all (ls : list string) : string :=
  match ls with
  | [] => EmptyString
  | l :: ls' => l +:+ write_all ls'
  end.

(** ** Reading a text file *)

(** Universal newlines: ["\r\n"] and a lone ["\r"] are read as ["\n"]. *)
Fixpoint translate_newlines (s : string) : string :=
  match s with
  | EmptyString => EmptyString
  | String c s' =>
      if Ascii.eqb c CR then
        match s' with
        | String c' s'' =>
            if Ascii.eqb c' LF then String LF (translate_newlines s'')
            else String LF (translate_newlines s')
        | EmptyString => String LF EmptyString
        end
      else String c (translate_newlines s')
  end.

(** Lines of an already translated text, each with its terminator; only
    the last one can lack it. *)
Fixpoint keepends (s : string) : list string :=
  match s with
  | EmptyString => []
  | String c s' =>
      if Ascii.eqb c LF then nl :: keepends s'
      else match keepends s' with
           | l :: ls => String c l :: ls
           | [] => [String c EmptyString]
           end
  end.

(** [list(f)] for [f = open(name)] *)
Definition readlines (content : string) : list string :=
  keepends (translate_newlines content).

(** ** The pattern [COPYRIGHT_RE]

    [re.compile(r'Copyright \(c\) (\d+)', re.I)]: the literal text, folded
    for case on both sides, then one or more digits, captured as group 1. *)

Definition COPYRIGHT_LITERAL : string := "Copyright (c) ".

(** A match anchored at the start of [s]: group 1. *)
Definition COPYRIGHT_RE_match (s : string) : option string :=
  match prefix_by lower COPYRIGHT_LITERAL s with
  | Some rest =>
      match fst (span_digits rest) with
      | EmptyString => None
      | d => Some d
      end
  | None => None
  end.

(** [COPYRIGHT_RE.search(line)]: the leftmost match, as its group 1. *)
Fixpoint COPYRIGHT_RE_search (s : string) : option string :=
  match COPYRIGHT_RE_match s with
  | Some d => Some d
  | None =>
      match s with
      | EmptyString => None
      | String _ s' => COPYRIGHT_RE_search s'
      end
  end.

(** ** Exceptions, Python values and the world *)

Inductive exn := FileNotFoundError | IndexError | TypeError | ValueError.

(** [sys.int_info.default_max_str_digits] *)
Definition INT_MAX_STR_DIGITS : nat := 4300.

(** [int(d)] for a string of decimal digits: the count of the digits,
    leading zeros included, is checked before the conversion. *)
Definition int (d : string) : exn + N :=
  if (INT_MAX_STR_DIGITS <? String.length d)%nat then inl ValueError
  else inr (int_value d).

(** What [replace] can be handed: a list of lines or a single [str]. *)
Inductive pyval :=
  | PyList (l : list string)
  | PyStr (s : string).

Record world := World {
  fs : gmap string string;
  stdout : list string
}.

Inductive outcome :=
  | Returned (w : world)
  | Raised (e : exn) (w : world).

Definition world_of (o : outcome) : world :=
  match o with Returned w => w | Raised _ w => w end.

Definition GENERATED_MARKER : string := "Code generated by".
Definition HOLDER : string := "Jaeger".
Definition COMMENT_PREFIX : string := "// ".

Section Normalizer.

(** [datetime.today().year], read once when the module is loaded. *)
Variable CURRENT_YEAR : N.

Definition LICENSE_BLOB : string :=
  "Copyright (c) " +:+ format_d CURRENT_YEAR +:+ " The Jaeger Authors.
" +:+ "
Licensed under the Apache License, Version 2.0 (the " +:+ String DQUOTE "License"
  +:+ String DQUOTE ");
you may not use this file except in compliance with the License.
You may obtain a copy of the License at

http://www.apache.org/licenses/LICENSE-2.0

Unless required by applicable law or agreed to in writing, software
distributed under the License is distributed on an " +:+ String DQUOTE "AS IS"
  +:+ String DQUOTE " BASIS,
WITHOUT WARRANTIES OR CONDITIONS OF ANY KIND, either express or implied.
See the License for the specific language governing permissions and
limitations under the License.".

Definition LICENSE_BLOB_LINES_GO : list string :=
  map (fun l => strip (COMMENT_PREFIX +:+ l) +:+ nl) (split_nl LICENSE_BLOB).

(** The [for] loop over [lines[:5]]: it stops at the first line the
    pattern matches, converts the year that line shows, and leaves
    [(found, jaeger)]; the conversion can raise. *)
Fixpoint scan (ls : list string) : exn + bool * bool :=
  match ls with
  | [] => inr (false, false)
  | line :: ls' =>
      match COPYRIGHT_RE_search line with
      | None => scan ls'
      | Some g1 =>
          let jaeger := contains HOLDER line in
          match int g1 with
          | inl e => inl e
          | inr year =>
              if (year =? CURRENT_YEAR)%N then inr (true, jaeger)
              else inr (true, jaeger)
          end
      end
  end.

(** The inner function [replace], on the list it mutates. *)
Definition replace (header_lines : pyval) (lines : list string)
  : exn + list string :=
  match lines !! 0%nat with
  | None => inl IndexError
  | Some first =>
      if contains GENERATED_MARKER first then
        match header_lines with
        | PyList h => inr (take 1 lines ++ (nl :: h) ++ drop 1 lines)
        | PyStr _ => inl TypeError
        end
      else
        match header_lines with
        | PyList h => inr (h ++ lines)
        | PyStr s => inr (chars s ++ lines)
        end
  end.

Definition write_and_print (name : string) (lines : list string) (w : world)
  : world :=
  World (<[name := write_all lines]> (fs w)) (stdout w ++ [name]).

Definition update_go_license (name : string) (w : world) : outcome :=
  match fs w !! name with
  | None => Raised FileNotFoundError w
  | Some content =>
      let lines := readlines content in
      match scan (take 5 lines) with
      | inl e => Raised e w
      | inr (found, jaeger) =>
          if negb found then
            match replace (PyList (LICENSE_BLOB_LINES_GO ++ [nl])) lines with
            | inl e => Raised e w
            | inr lines' => Returned (write_and_print name lines' w)
            end
          else if negb jaeger then
            match LICENSE_BLOB_LINES_GO !! 0%nat with
            | None => Raised IndexError w
            | Some h0 =>
                match replace (PyStr h0) lines with
                | inl e => Raised e w
                | inr lines' => Returned (write_and_print name lines' w)
                end
            end
          else Returned w
      end
  end.

End Normalizer.

(** ** The driver [main]

    [main] reads [sys.argv], prints on standard output and, through the
    module's logger, writes records on the logging stream.  A record is
    kept as the call that made it. *)

(** [s.endswith(suffix)] *)
Fixpoint endswith (suffix s : string) : bool :=
  if String.eqb s suffix then true
  else match s with
       | EmptyString => false
       | String _ s' => endswith suffix s'
       end.

Inductive log_record :=
  | LogError (msg : string)
  | LogException (e : exn).

(** What can leave [main]: an exception of a run, raised again after it is
    logged, the [NotImplementedError] of an unsupported name, and the
    [SystemExit] of [sys.exit]. *)
Inductive failure :=
  | Propagated (e : exn)
  | NotImplementedError (msg : string)
  | SystemExit (code : nat).

Record process := Process {
  state : world;
  logged : list log_record
}.

Inductive main_outcome :=
  | Finished (p : process)
  | Aborted (f : failure) (p : process).

Definition process_of (o : main_outcome) : process :=
  match o with Finished p => p | Aborted _ p => p end.

Section Driver.

Variable CURRENT_YEAR : N.

(** The loop [for name in sys.argv[1:]]. *)
Fixpoint process_files (names : list string) (p : process) : main_outcome :=
  match names with
  | [] => Finished p
  | name :: rest =>
      if endswith ".go" name then
        match update_go_license CURRENT_YEAR name (state p) with
        | Returned w' => process_files rest (Process w' (logged p))
        | Raised e w' =>
            Aborted (Propagated e)
                    (Process w'
                       (logged p
                        ++ [LogError ("Failed to process file " +:+ name);
                            LogException e]))
        end
      else
        Aborted (NotImplementedError ("Unsupported file type: " +:+ name)) p
  end.

Definition main (argv : list string) (p : process) : main_outcome :=
  match argv with
  | [prog] =>
      Aborted (SystemExit 1)
              (Process (World (fs (state p))
                              (stdout (state p)
                               ++ ["USAGE: " +:+ prog +:+ " FILE ..."]))
                       (logged p))
  | _ => process_files (drop 1 argv) p
  end.

End Driver.

(** * Vocabulary of the statements *)

(** ** Predicates on strings and lines *)

Fixpoint all_chars (P : ascii -> bool) (s : string) : bool :=
  match s with
  | EmptyString => true
  | String c s' => P c && all_chars P s'
  end.

Definition no_char (x : ascii) : string -> bool :=
  all_chars (fun c => negb (Ascii.eqb c x)).

(** [s] ends with its only line feed. *)
Fixpoint terminated (s : string) : bool :=
  match s with
  | EmptyString => false
  | String c s' =>
      if Ascii.eqb c LF then
        match s' with EmptyString => true | _ => false end
      else terminated s'
  end.

(** What [list(f)] can produce: terminated lines, the last one possibly a
    non-empty line without terminator. *)
Fixpoint wf_lines (ls : list string) : bool :=
  match ls with
  | [] => true
  | l :: ls' =>
      (terminated l && wf_lines ls')
      || (no_char LF l && negb (String.eqb l EmptyString)
          && match ls' with [] => true | _ => false end)
  end.

(** [s] with every character folded as [re.I] folds it. *)
Fixpoint casefold (s : string) : string :=
  match s with
  | EmptyString => EmptyString
  | String c s' => String (lower c) (casefold s')
  end.

(** ** The template, as it turns out *)

(** The first template line, and the twelve that do not depend on the
    year. *)
Definition HEADER_FIRST (year : N) : string :=
  "// Copyright (c) " +:+ format_d year +:+ " The Jaeger Authors." +:+ nl.

Definition HEADER_REST : list string :=
  Eval vm_compute in tail (LICENSE_BLOB_LINES_GO 0).

(** ** Matched lines and worlds *)

(** [line] is the first of the first five lines that the pattern matches,
    and [g] is the year text it captures. *)
Definition first_copyright_line (lines : list string) (line g : string) : Prop :=
  exists pre post,
    take 5 lines = pre ++ line :: post
    /\ Forall (fun l => COPYRIGHT_RE_search l = None) pre
    /\ COPYRIGHT_RE_search line = Some g.

(** None of the first five lines is matched. *)
Definition no_copyright_line (lines : list string) : Prop :=
  Forall (fun l => COPYRIGHT_RE_search l = None) (take 5 lines).

(** A world with one file and nothing printed yet. *)
Definition single_file (name content : string) : world :=
  World {[ name := content ]} [].

(** A run on [name] that returns and leaves the world as it is. *)
Definition settled (year : N) (name : string) (w : world) : Prop :=
  update_go_license year name w = Returned w.

(** A run on [name] that writes nothing: the first matched line of the
    window holds the holder token, so the run returns at once, or raises
    when the year of that line is too long for [int]. *)
Definition left_alone (year : N) (name : string) (w : world) : Prop :=
  exists c,
    fs w !! name = Some c
    /\ (scan year (take 5 (readlines c)) = inr (true, true)
        \/ scan year (take 5 (readlines c)) = inl ValueError).

(** The whole block as the full-header path inserts it. *)
Definition FULL_BLOCK (year : N) : string :=
  write_all (LICENSE_BLOB_LINES_GO year ++ [nl]).

(** A process that has logged nothing yet. *)
Definition fresh (w : world) : process := Process w [].

(** [format_d] stays within four digits on [k] numbers from [n] on. *)
Fixpoint all_below (k : nat) (n : N) : bool :=
  match k with
  | O => true
  | S k' =>
      Nat.leb (String.length (format_d n)) 4 && all_below k' (N.succ n)
  end.

(** ** Concrete years and files *)

Definition EXAMPLE_YEAR : N := 2026.

Definition other_corp_current : string :=
  "// Copyright (c) 2026 Some Other Corp
package foo
".

Definition other_corp_past : string :=
  "// Copyright (c) 2019 Some Other Corp
package foo
".

Definition jaeger_current : string :=
  "// Copyright (c) 2026 The Jaeger Authors.
package foo
".

Definition jaeger_past : string :=
  "// Copyright (c) 2019 The Jaeger Authors.
package foo
".

Definition generated_other_corp_past : string :=
  "// Code generated by tool
// Copyright (c) 2019 Some Other Corp
package foo
".


(** Two files: one that a run rewrites, one that is settled. *)
Definition two_files : world :=
  World {[ "a.go" := other_corp_past; "b.go" := jaeger_past ]} [].

(** [two_files] after a run on ["a.go"]. *)
Definition two_files_done : world :=
  World {[ "a.go" := HEADER_FIRST EXAMPLE_YEAR +:+ other_corp_past;
           "b.go" := jaeger_past ]} ["a.go"].

(** The line end of a DOS text file. *)
Definition CRLF : string := String CR nl.

(** [other_corp_past] with DOS line ends. *)
Definition other_corp_past_crlf : string :=
  "// Copyright (c) 2019 Some Other Corp" +:+ CRLF +:+ "package foo" +:+ CRLF.


Fixpoint zeros (n : nat) : string :=
  match n with
  | O => EmptyString
  | S n' => String "0" (zeros n')
  end.

(** The year 2026 written with 4301 digits, and the year 2019 likewise. *)
Definition long_2026 : string := zeros 4297 +:+ "2026".
Definition long_2019 : string := zeros 4297 +:+ "2019".

Definition holder_line (year_text : string) : string :=
  "// Copyright (c) " +:+ year_text +:+ " The Jaeger Authors." +:+ nl.

Definition other_line (year_text : string) : string :=
  "// Copyright (c) " +:+ year_text +:+ " Some Other Corp" +:+ nl.

Definition package_foo : string := "package foo" +:+ nl.

(** ** Tactics *)

Ltac each_ascii c :=
  destruct c as [[] [] [] [] [] [] [] []]; vm_compute; try reflexivity;
  try discriminate.

Ltac first_line_here :=
  eexists [], _; split; [reflexivity |]; split; [constructor | reflexivity].

(** * Properties *)

(** ** Strings *)

#[local] Arguments String.append !_ _ / : simpl nomatch.

Lemma app_empty_r (s : string) : s +:+ EmptyString = s.
Proof. induction s as [|c s IH]; simpl; [reflexivity | now rewrite IH]. Qed.

Lemma app_assoc_s (a b c : string) : (a +:+ b) +:+ c = a +:+ (b +:+ c).
Proof. induction a as [|x a IH]; simpl; [reflexivity | now rewrite IH]. Qed.

Lemma write_all_app (xs ys : list string) :
  write_all (xs ++ ys) = write_all xs +:+ write_all ys.
Proof.
  induction xs as [|x xs IH]; simpl; [reflexivity |].
  now rewrite IH, app_assoc_s.
Qed.

Lemma write_all_chars (s : string) : write_all (chars s) = s.
Proof. induction s as [|c s IH]; simpl; [reflexivity | now rewrite IH]. Qed.

(** *** Lines and terminators *)

Lemma all_chars_app P a b :
  all_chars P (a +:+ b) = all_chars P a && all_chars P b.
Proof.
  induction a as [|c a IH]; simpl; [reflexivity |].
  now rewrite IH, andb_assoc.
Qed.

Lemma all_chars_impl (P Q : ascii -> bool) s :
  (forall c, P c = true -> Q c = true) ->
  all_chars P s = true -> all_chars Q s = true.
Proof.
  intros HPQ. induction s as [|c s IH]; simpl; [reflexivity |].
  intros [Hc Hs]%andb_true_iff. rewrite (HPQ c Hc). auto.
Qed.

Lemma no_char_app x a b :
  no_char x (a +:+ b) = no_char x a && no_char x b.
Proof. apply all_chars_app. Qed.

Lemma no_char_cons x c s :
  no_char x (String c s) = negb (Ascii.eqb c x) && no_char x s.
Proof. reflexivity. Qed.

Lemma terminated_snoc (b : string) :
  no_char LF b = true -> terminated (b +:+ nl) = true.
Proof.
  induction b as [|c b IH]; simpl; [reflexivity |].
  rewrite no_char_cons. intros [Hc Hb]%andb_true_iff.
  destruct (Ascii.eqb c LF); [discriminate | auto].
Qed.

Lemma keepends_terminated (h t : string) :
  terminated h = true -> keepends (h +:+ t) = h :: keepends t.
Proof.
  induction h as [|c h IH]; simpl; [discriminate |].
  destruct (Ascii.eqb c LF) eqn:E.
  - apply Ascii.eqb_eq in E as ->.
    destruct h; [reflexivity | discriminate].
  - intros Hh. now rewrite IH.
Qed.

Lemma keepends_unterminated (h : string) :
  no_char LF h = true -> h <> EmptyString -> keepends h = [h].
Proof.
  induction h as [|c h IH]; simpl; [congruence |].
  rewrite no_char_cons. intros [Hc Hh]%andb_true_iff _.
  destruct (Ascii.eqb c LF); [discriminate |].
  destruct h as [|c' h]; [reflexivity |].
  rewrite IH; [reflexivity | assumption | discriminate].
Qed.

Lemma keepends_write_all (ls : list string) :
  wf_lines ls = true -> keepends (write_all ls) = ls.
Proof.
  induction ls as [|l ls IH]; simpl; [reflexivity |].
  intros [[Hl Hls]%andb_true_iff | [[Hl Hne]%andb_true_iff Hnil]%andb_true_iff]%orb_true_iff.
  - rewrite keepends_terminated by assumption. now rewrite IH.
  - destruct ls; [| discriminate]. cbn [write_all]. rewrite (app_empty_r l).
    apply keepends_unterminated; [assumption |].
    intros ->. discriminate.
Qed.

Lemma wf_lines_keepends (s : string) : wf_lines (keepends s) = true.
Proof.
  induction s as [|c s IH]; simpl; [reflexivity |].
  destruct (Ascii.eqb c LF) eqn:E.
  - simpl. now rewrite IH.
  - destruct (keepends s) as [|l ls]; simpl; rewrite no_char_cons, E.
    + reflexivity.
    + simpl in IH. simpl.
      apply orb_true_iff in IH as [H | H].
      * now rewrite H.
      * apply andb_true_iff in H as [[H1 H2]%andb_true_iff H3].
        rewrite H1, H3. simpl. apply orb_true_r.
Qed.

Lemma write_all_keepends (s : string) : write_all (keepends s) = s.
Proof.
  induction s as [|c s IH]; simpl; [reflexivity |].
  destruct (Ascii.eqb c LF) eqn:E.
  - apply Ascii.eqb_eq in E as ->. simpl. now rewrite IH.
  - destruct (keepends s) as [|l ls]; simpl in *; now rewrite <- IH.
Qed.

(** *** Universal newlines *)

Lemma translate_newlines_no_cr_aux (s : string) :
  no_char CR (translate_newlines s) = true
  /\ forall c, no_char CR (translate_newlines (String c s)) = true.
Proof.
  induction s as [|a s [IH1 IH2]].
  - split; [reflexivity |]. intros c. simpl.
    destruct (Ascii.eqb c CR) eqn:E; [reflexivity |].
    rewrite no_char_cons, E. reflexivity.
  - split; [apply IH2 |]. intros c.
    cbn [translate_newlines].
    destruct (Ascii.eqb c CR) eqn:E.
    + destruct (Ascii.eqb a LF); rewrite no_char_cons;
        change (Ascii.eqb LF CR) with false; cbn [negb andb];
        [apply IH1 | apply IH2].
    + rewrite no_char_cons, E. cbn [negb andb]. apply IH2.
Qed.

Lemma translate_newlines_no_cr (s : string) :
  no_char CR (translate_newlines s) = true.
Proof. apply translate_newlines_no_cr_aux. Qed.

Lemma translate_newlines_id (s : string) :
  no_char CR s = true -> translate_newlines s = s.
Proof.
  induction s as [|c s IH]; [reflexivity |].
  rewrite no_char_cons. intros [Hc Hs]%andb_true_iff.
  cbn [translate_newlines].
  destruct (Ascii.eqb c CR); [discriminate |].
  now rewrite IH.
Qed.

Lemma write_all_readlines (content : string) :
  write_all (readlines content) = translate_newlines content.
Proof. apply write_all_keepends. Qed.

Lemma readlines_no_cr (content : string) :
  no_char CR (write_all (readlines content)) = true.
Proof. rewrite write_all_readlines. apply translate_newlines_no_cr. Qed.

(** Reading back what was written from well-formed lines without carriage
    returns gives the same lines. *)
Lemma readlines_write_all (ls : list string) :
  wf_lines ls = true -> no_char CR (write_all ls) = true ->
  readlines (write_all ls) = ls.
Proof.
  intros Hwf Hcr. unfold readlines.
  rewrite translate_newlines_id by assumption.
  now apply keepends_write_all.
Qed.

(** *** Digits and ['%d'] *)

Lemma string_of_uint_digits (d : uint) :
  all_chars isdigit (NilEmpty.string_of_uint d) = true.
Proof. induction d; simpl; auto. Qed.

Lemma format_d_digits (n : N) : all_chars isdigit (format_d n) = true.
Proof. apply string_of_uint_digits. Qed.

Lemma format_d_nonempty (n : N) : format_d n <> EmptyString.
Proof.
  unfold format_d. destruct n as [|p]; [discriminate |].
  pose proof (DecimalPos.Unsigned.to_uint_nonnil p) as H.
  simpl. destruct (Pos.to_uint p); [congruence | discriminate ..].
Qed.

Lemma digits_no_char (x : ascii) (s : string) :
  isdigit x = false -> all_chars isdigit s = true -> no_char x s = true.
Proof.
  intros Hx. apply all_chars_impl. intros c Hc.
  destruct (Ascii.eqb c x) eqn:E; [| reflexivity].
  apply Ascii.eqb_eq in E. congruence.
Qed.

Lemma span_digits_app (d r : string) :
  all_chars isdigit d = true -> span_digits r = (EmptyString, r) ->
  span_digits (d +:+ r) = (d, r).
Proof.
  intros Hd Hr. induction d as [|c d IH]; simpl in *; [assumption |].
  apply andb_true_iff in Hd as [Hc Hd]. rewrite Hc, IH by assumption.
  reflexivity.
Qed.

(** *** Searching *)

Lemma search_eq (s : string) :
  COPYRIGHT_RE_search s =
  match COPYRIGHT_RE_match s with
  | Some d => Some d
  | None =>
      match s with
      | EmptyString => None
      | String _ s' => COPYRIGHT_RE_search s'
      end
  end.
Proof. destruct s; reflexivity. Qed.

Lemma search_here (s d : string) :
  COPYRIGHT_RE_match s = Some d -> COPYRIGHT_RE_search s = Some d.
Proof. intros H. now rewrite search_eq, H. Qed.

Lemma search_skip (c : ascii) (s : string) :
  COPYRIGHT_RE_match (String c s) = None ->
  COPYRIGHT_RE_search (String c s) = COPYRIGHT_RE_search s.
Proof. intros H. now rewrite search_eq, H. Qed.

Lemma match_literal (rest : string) :
  COPYRIGHT_RE_match (COPYRIGHT_LITERAL +:+ rest) =
  match fst (span_digits rest) with
  | EmptyString => None
  | d => Some d
  end.
Proof. reflexivity. Qed.

Lemma contains_app_r (t a b : string) :
  contains t b = true -> contains t (a +:+ b) = true.
Proof.
  intros Hb. induction a as [|c a IH]; simpl; [assumption |].
  destruct (prefix_by id t (String c (a +:+ b))); [reflexivity | assumption].
Qed.

(** *** Stripping and splitting *)

Lemma app_nonempty_r (a b : string) :
  b <> EmptyString -> a +:+ b <> EmptyString.
Proof. destruct a; simpl; [auto | discriminate]. Qed.

Lemma rstrip_app (a b : string) :
  rstrip b <> EmptyString -> rstrip (a +:+ b) = a +:+ rstrip b.
Proof.
  intros Hb. induction a as [|c a IH]; simpl; [reflexivity |].
  rewrite IH.
  pose proof (app_nonempty_r a _ Hb) as Hne.
  destruct (a +:+ rstrip b); [congruence | reflexivity].
Qed.

(** Prefixing first and stripping afterwards: the prefix keeps its trailing
    space only in front of a line that is not blank. *)
Lemma strip_prefixed (l : string) :
  strip (COMMENT_PREFIX +:+ l) =
  match rstrip l with
  | EmptyString => "//"
  | r => COMMENT_PREFIX +:+ r
  end.
Proof.
  unfold strip, COMMENT_PREFIX.
  change (lstrip ("// " +:+ l)) with ("// " +:+ l).
  destruct (rstrip l) as [|c r] eqn:E.
  - change ("// " +:+ l) with ("//" +:+ String " " l).
    change "//" with ("//" +:+ EmptyString) at 2.
    simpl. rewrite E. reflexivity.
  - rewrite rstrip_app by (rewrite E; discriminate). now rewrite E.
Qed.

Lemma split_nl_app (a b l : string) (ls : list string) :
  no_char LF a = true -> split_nl b = l :: ls ->
  split_nl (a +:+ b) = (a +:+ l) :: ls.
Proof.
  intros Ha Hb. induction a as [|c a IH]; simpl; [assumption |].
  rewrite no_char_cons in Ha. apply andb_true_iff in Ha as [Hc Ha].
  destruct (Ascii.eqb c LF); [discriminate |].
  now rewrite IH.
Qed.

(** ** The header template *)

Section Header.

Variable CURRENT_YEAR : N.

Lemma LICENSE_BLOB_split :
  split_nl (LICENSE_BLOB CURRENT_YEAR) =
  ("Copyright (c) " +:+ format_d CURRENT_YEAR +:+ " The Jaeger Authors.")
    :: tail (split_nl (LICENSE_BLOB 0)).
Proof.
  unfold LICENSE_BLOB.
  match goal with
  | |- context [format_d CURRENT_YEAR +:+ ?t] => set (rest := t)
  end.
  assert (Hrest : split_nl rest =
                  " The Jaeger Authors." :: tail (split_nl (LICENSE_BLOB 0)))
    by (vm_compute; reflexivity).
  apply split_nl_app; [reflexivity |].
  apply split_nl_app; [| exact Hrest].
  apply digits_no_char; [reflexivity | apply format_d_digits].
Qed.

Lemma HEADER_REST_eq :
  map (fun l => strip (COMMENT_PREFIX +:+ l) +:+ nl)
      (tail (split_nl (LICENSE_BLOB 0))) = HEADER_REST.
Proof. vm_compute; reflexivity. Qed.

Lemma HEADER_FIRST_eq :
  strip (COMMENT_PREFIX +:+ "Copyright (c) " +:+ format_d CURRENT_YEAR
         +:+ " The Jaeger Authors.") +:+ nl
  = HEADER_FIRST CURRENT_YEAR.
Proof.
  rewrite strip_prefixed.
  assert (Hr : rstrip (format_d CURRENT_YEAR +:+ " The Jaeger Authors.") =
               format_d CURRENT_YEAR +:+ " The Jaeger Authors.")
    by (apply rstrip_app; discriminate).
  rewrite (rstrip_app "Copyright (c) ")
    by (rewrite Hr; apply app_nonempty_r; discriminate).
  rewrite Hr. unfold HEADER_FIRST, COMMENT_PREFIX.
  rewrite <- (app_assoc_s (format_d CURRENT_YEAR) " The Jaeger Authors." nl).
  reflexivity.
Qed.

Lemma LICENSE_BLOB_LINES_GO_unfold :
  LICENSE_BLOB_LINES_GO CURRENT_YEAR =
  map (fun l => strip (COMMENT_PREFIX +:+ l) +:+ nl)
      (split_nl (LICENSE_BLOB CURRENT_YEAR)).
Proof. reflexivity. Qed.

Lemma LICENSE_BLOB_LINES_GO_eq :
  LICENSE_BLOB_LINES_GO CURRENT_YEAR = HEADER_FIRST CURRENT_YEAR :: HEADER_REST.
Proof.
  rewrite LICENSE_BLOB_LINES_GO_unfold, LICENSE_BLOB_split, map_cons.
  rewrite HEADER_REST_eq, HEADER_FIRST_eq. reflexivity.
Qed.

Lemma HEADER_FIRST_search :
  COPYRIGHT_RE_search (HEADER_FIRST CURRENT_YEAR) = Some (format_d CURRENT_YEAR).
Proof.
  unfold HEADER_FIRST.
  change ("// Copyright (c) " +:+ ?t) with ("// " +:+ COPYRIGHT_LITERAL +:+ t).
  cbn [String.append].
  rewrite !search_skip by reflexivity.
  apply search_here. rewrite match_literal.
  rewrite span_digits_app by (reflexivity || apply format_d_digits).
  cbn [fst]. pose proof (format_d_nonempty CURRENT_YEAR).
  destruct (format_d CURRENT_YEAR); congruence.
Qed.

Lemma HEADER_FIRST_holder :
  contains HOLDER (HEADER_FIRST CURRENT_YEAR) = true.
Proof.
  unfold HEADER_FIRST. rewrite <- app_assoc_s.
  apply contains_app_r. reflexivity.
Qed.

Lemma HEADER_FIRST_terminated : terminated (HEADER_FIRST CURRENT_YEAR) = true.
Proof.
  unfold HEADER_FIRST. rewrite <- !app_assoc_s.
  apply terminated_snoc. rewrite !no_char_app.
  rewrite (digits_no_char LF (format_d CURRENT_YEAR)) by (reflexivity || apply format_d_digits).
  reflexivity.
Qed.

Lemma HEADER_FIRST_no_cr : no_char CR (HEADER_FIRST CURRENT_YEAR) = true.
Proof.
  unfold HEADER_FIRST. rewrite !no_char_app.
  rewrite (digits_no_char CR (format_d CURRENT_YEAR)) by (reflexivity || apply format_d_digits).
  reflexivity.
Qed.

End Header.

(** ** The conversion of the year *)

Lemma int_cases (g : string) :
  (String.length g <= INT_MAX_STR_DIGITS /\ int g = inr (int_value g))
  \/ (INT_MAX_STR_DIGITS < String.length g /\ int g = inl ValueError).
Proof.
  unfold int.
  destruct (Nat.ltb_spec INT_MAX_STR_DIGITS (String.length g)); auto.
Qed.

Lemma int_short (g : string) :
  String.length g <= INT_MAX_STR_DIGITS -> int g = inr (int_value g).
Proof. intros H. destruct (int_cases g) as [[_ ->] | [H' _]]; [reflexivity | lia]. Qed.

Lemma int_long (g : string) :
  INT_MAX_STR_DIGITS < String.length g -> int g = inl ValueError.
Proof. intros H. destruct (int_cases g) as [[H' _] | [_ ->]]; [lia | reflexivity]. Qed.

Lemma int_inr (g : string) (y : N) :
  int g = inr y <-> String.length g <= INT_MAX_STR_DIGITS /\ y = int_value g.
Proof.
  destruct (int_cases g) as [[H ->] | [H ->]]; split.
  - intros [= <-]. auto.
  - now intros [_ ->].
  - discriminate.
  - intros [H' _]. lia.
Qed.

Lemma int_inl (g : string) (e : exn) :
  int g = inl e <-> INT_MAX_STR_DIGITS < String.length g /\ e = ValueError.
Proof.
  destruct (int_cases g) as [[H ->] | [H ->]]; split.
  - discriminate.
  - intros [H' _]. lia.
  - intros [= <-]. auto.
  - now intros [_ ->].
Qed.

Lemma int_test (g : string) :
  int g = if (INT_MAX_STR_DIGITS <? String.length g)%nat then inl ValueError
          else inr (int_value g).
Proof. reflexivity. Qed.

(** ** The scan of the first five lines *)

#[local] Arguments HEADER_REST : simpl never.
#[local] Arguments LICENSE_BLOB_LINES_GO : simpl never.
#[local] Opaque INT_MAX_STR_DIGITS.

Section Scan.

Variable CURRENT_YEAR : N.

Lemma scan_cons_skip (l : string) (ls : list string) :
  COPYRIGHT_RE_search l = None ->
  scan CURRENT_YEAR (l :: ls) = scan CURRENT_YEAR ls.
Proof. intros H. cbn [scan]. now rewrite H. Qed.

Lemma scan_cons_hit (l g : string) (ls : list string) :
  COPYRIGHT_RE_search l = Some g ->
  scan CURRENT_YEAR (l :: ls) =
  match int g with
  | inl e => inl e
  | inr _ => inr (true, contains HOLDER l)
  end.
Proof.
  intros H. cbn [scan]. rewrite H.
  destruct (int g) as [e|y]; [reflexivity |].
  now destruct (y =? CURRENT_YEAR)%N.
Qed.

Lemma scan_no_match (ls : list string) :
  Forall (fun l => COPYRIGHT_RE_search l = None) ls ->
  scan CURRENT_YEAR ls = inr (false, false).
Proof.
  induction 1 as [|l ls Hl _ IH]; [reflexivity |].
  now rewrite scan_cons_skip.
Qed.

Lemma scan_first_match (pre post : list string) (line g : string) :
  Forall (fun l => COPYRIGHT_RE_search l = None) pre ->
  COPYRIGHT_RE_search line = Some g ->
  scan CURRENT_YEAR (pre ++ line :: post) =
  match int g with
  | inl e => inl e
  | inr _ => inr (true, contains HOLDER line)
  end.
Proof.
  intros Hpre Hline.
  induction Hpre as [|l ls Hl _ IH]; cbn [app].
  - now apply scan_cons_hit.
  - now rewrite scan_cons_skip.
Qed.

Lemma scan_found_false (ls : list string) (j : bool) :
  scan CURRENT_YEAR ls = inr (false, j) ->
  Forall (fun l => COPYRIGHT_RE_search l = None) ls /\ j = false.
Proof.
  induction ls as [|l ls IH].
  - intros [= <-]. split; [constructor | reflexivity].
  - destruct (COPYRIGHT_RE_search l) as [g|] eqn:E.
    + rewrite (scan_cons_hit l g ls E). destruct (int g); discriminate.
    + rewrite scan_cons_skip by assumption.
      intros H. destruct (IH H) as [Hls ->]. split; [| reflexivity].
      constructor; assumption.
Qed.

Lemma scan_found_true (ls : list string) (j : bool) :
  scan CURRENT_YEAR ls = inr (true, j) ->
  exists pre line post g y,
    ls = pre ++ line :: post
    /\ Forall (fun l => COPYRIGHT_RE_search l = None) pre
    /\ COPYRIGHT_RE_search line = Some g
    /\ int g = inr y
    /\ j = contains HOLDER line.
Proof.
  induction ls as [|l ls IH]; [discriminate |].
  destruct (COPYRIGHT_RE_search l) as [g|] eqn:E.
  - rewrite (scan_cons_hit l g ls E).
    destruct (int g) as [e|y] eqn:Hint; [discriminate |].
    intros [= <-]. exists [], l, ls, g, y. auto.
  - rewrite scan_cons_skip by assumption. intros H.
    destruct (IH H) as (pre & line & post & g & y & -> & Hpre & Hl & Hy & ->).
    exists (l :: pre), line, post, g, y. repeat split; auto.
Qed.

Lemma scan_raised (ls : list string) (e : exn) :
  scan CURRENT_YEAR ls = inl e ->
  exists pre line post g,
    ls = pre ++ line :: post
    /\ Forall (fun l => COPYRIGHT_RE_search l = None) pre
    /\ COPYRIGHT_RE_search line = Some g
    /\ int g = inl e.
Proof.
  induction ls as [|l ls IH]; [discriminate |].
  destruct (COPYRIGHT_RE_search l) as [g|] eqn:E.
  - rewrite (scan_cons_hit l g ls E).
    destruct (int g) as [e'|y] eqn:Hint; [| discriminate].
    intros [= <-]. exists [], l, ls, g. auto.
  - rewrite scan_cons_skip by assumption. intros H.
    destruct (IH H) as (pre & line & post & g & -> & Hpre & Hl & Hy).
    exists (l :: pre), line, post, g. repeat split; auto.
Qed.

(** Lines past the fifth do not reach the scan. *)
Lemma scan_window (front back : list string) :
  5 <= length front ->
  scan CURRENT_YEAR (take 5 (front ++ back)) = scan CURRENT_YEAR (take 5 front).
Proof. intros H. now rewrite take_app_le. Qed.

End Scan.

Lemma scan_any_year (year year' : N) (ls : list string) :
  scan year ls = scan year' ls.
Proof.
  induction ls as [|l ls IH]; [reflexivity |].
  destruct (COPYRIGHT_RE_search l) as [g|] eqn:E.
  - now rewrite (scan_cons_hit year l g), (scan_cons_hit year' l g).
  - now rewrite !scan_cons_skip by assumption.
Qed.

(** ** One run of [update_go_license] *)

Section Run.

Variable CURRENT_YEAR : N.

#[local] Abbreviation update := (update_go_license CURRENT_YEAR).
#[local] Abbreviation TEMPLATE := (LICENSE_BLOB_LINES_GO CURRENT_YEAR).

Lemma update_missing (name : string) (w : world) :
  fs w !! name = None -> update name w = Raised FileNotFoundError w.
Proof. intros H. unfold update_go_license. now rewrite H. Qed.

Lemma update_scan_raised (name : string) (w : world) (content : string) e :
  fs w !! name = Some content ->
  scan CURRENT_YEAR (take 5 (readlines content)) = inl e ->
  update name w = Raised e w.
Proof. intros H Hs. unfold update_go_license. now rewrite H, Hs. Qed.

Lemma update_noop (name : string) (w : world) (content : string) :
  fs w !! name = Some content ->
  scan CURRENT_YEAR (take 5 (readlines content)) = inr (true, true) ->
  update name w = Returned w.
Proof. intros H Hs. unfold update_go_license. now rewrite H, Hs. Qed.

Lemma update_full (name : string) (w : world) (content : string) j :
  fs w !! name = Some content ->
  scan CURRENT_YEAR (take 5 (readlines content)) = inr (false, j) ->
  update name w =
  match replace (PyList (TEMPLATE ++ [nl])) (readlines content) with
  | inl e => Raised e w
  | inr lines' => Returned (write_and_print name lines' w)
  end.
Proof. intros H Hs. unfold update_go_license. now rewrite H, Hs. Qed.

Lemma update_single (name : string) (w : world) (content : string) :
  fs w !! name = Some content ->
  scan CURRENT_YEAR (take 5 (readlines content)) = inr (true, false) ->
  update name w =
  match replace (PyStr (HEADER_FIRST CURRENT_YEAR)) (readlines content) with
  | inl e => Raised e w
  | inr lines' => Returned (write_and_print name lines' w)
  end.
Proof.
  intros H Hs. unfold update_go_license. rewrite H, Hs.
  cbn [negb]. now rewrite LICENSE_BLOB_LINES_GO_eq.
Qed.

Lemma replace_list_plain (h : list string) (first : string) rest :
  contains GENERATED_MARKER first = false ->
  replace (PyList h) (first :: rest) = inr (h ++ first :: rest).
Proof. intros H. unfold replace. simpl. now rewrite H. Qed.

Lemma replace_list_marker (h : list string) (first : string) rest :
  contains GENERATED_MARKER first = true ->
  replace (PyList h) (first :: rest) = inr (first :: nl :: h ++ rest).
Proof. intros H. unfold replace. simpl. now rewrite H. Qed.

Lemma replace_str_plain (s first : string) rest :
  contains GENERATED_MARKER first = false ->
  replace (PyStr s) (first :: rest) = inr (chars s ++ first :: rest).
Proof. intros H. unfold replace. simpl. now rewrite H. Qed.

Lemma replace_str_marker (s first : string) rest :
  contains GENERATED_MARKER first = true ->
  replace (PyStr s) (first :: rest) = inl TypeError.
Proof. intros H. unfold replace. simpl. now rewrite H. Qed.

End Run.

(** ** Reading back a rewritten file *)

Lemma wf_lines_app_terminated (ins ls : list string) :
  forallb terminated ins = true -> wf_lines ls = true ->
  wf_lines (ins ++ ls) = true.
Proof.
  intros Hins Hls. induction ins as [|h ins IH]; [assumption |].
  cbn [forallb] in Hins. apply andb_true_iff in Hins as [Hh Hins].
  cbn [app wf_lines]. now rewrite Hh, IH.
Qed.

Lemma wf_lines_terminated (ins : list string) :
  forallb terminated ins = true -> wf_lines ins = true.
Proof.
  intros H. rewrite <- (app_nil_r ins).
  now apply wf_lines_app_terminated.
Qed.

Lemma terminated_has_lf (s : string) :
  terminated s = true -> no_char LF s = false.
Proof.
  induction s as [|c s IH]; [discriminate |].
  cbn [terminated]. rewrite no_char_cons.
  destruct (Ascii.eqb c LF); [reflexivity |].
  intros H. now rewrite IH.
Qed.

Lemma wf_lines_cons_inv (l : string) (ls : list string) :
  wf_lines (l :: ls) = true ->
  (terminated l = true /\ wf_lines ls = true)
  \/ (terminated l = false /\ no_char LF l = true /\ l <> EmptyString /\ ls = []).
Proof.
  cbn [wf_lines].
  intros [[Hl Hls]%andb_true_iff
         | [[Hl Hne]%andb_true_iff Hnil]%andb_true_iff]%orb_true_iff.
  - left. auto.
  - right. repeat split.
    + destruct (terminated l) eqn:E; [| reflexivity].
      apply terminated_has_lf in E. congruence.
    + assumption.
    + intros ->. discriminate.
    + destruct ls; [reflexivity | discriminate].
Qed.

Lemma write_all_no_cr_app (xs ys : list string) :
  no_char CR (write_all (xs ++ ys)) =
  no_char CR (write_all xs) && no_char CR (write_all ys).
Proof. now rewrite write_all_app, no_char_app. Qed.

Lemma wf_lines_readlines (content : string) :
  wf_lines (readlines content) = true.
Proof. apply wf_lines_keepends. Qed.

(** Lines put in front of what was read. *)
Lemma reread_top (ins : list string) (content : string) :
  forallb terminated ins = true -> no_char CR (write_all ins) = true ->
  readlines (write_all (ins ++ readlines content)) = ins ++ readlines content.
Proof.
  intros Ht Hcr. apply readlines_write_all.
  - apply wf_lines_app_terminated; [assumption | apply wf_lines_readlines].
  - now rewrite write_all_no_cr_app, Hcr, readlines_no_cr.
Qed.

(** The characters of one line put in front of what was read: the file
    holds that line. *)
Lemma write_all_chars_app (s : string) (ls : list string) :
  write_all (chars s ++ ls) = write_all (s :: ls).
Proof. now rewrite write_all_app, write_all_chars. Qed.

Lemma reread_chars (s content : string) :
  terminated s = true -> no_char CR s = true ->
  readlines (write_all (chars s ++ readlines content)) = s :: readlines content.
Proof.
  intros Ht Hcr. rewrite write_all_chars_app.
  apply (reread_top [s]).
  - cbn [forallb]. now rewrite Ht.
  - cbn [write_all]. now rewrite app_empty_r.
Qed.

(** Lines put behind the first line read.  When that line is the whole
    file and has no terminator, the blank line that leads the insertion
    ends it. *)
Lemma reread_after_first (ins : list string) (content first : string) rest :
  readlines content = first :: rest ->
  forallb terminated ins = true -> no_char CR (write_all ins) = true ->
  readlines (write_all (first :: nl :: ins ++ rest)) =
  if terminated first then first :: nl :: ins ++ rest
  else (first +:+ nl) :: ins.
Proof.
  intros Hread Ht Hcr.
  pose proof (wf_lines_readlines content) as Hwf.
  pose proof (readlines_no_cr content) as Hnocr.
  rewrite Hread in Hwf, Hnocr.
  cbn [write_all] in Hnocr. rewrite no_char_app in Hnocr.
  apply andb_true_iff in Hnocr as [Hcr1 Hcr2].
  apply wf_lines_cons_inv in Hwf
    as [[Hterm Hrest] | (Hterm & Hnolf & Hne & ->)]; rewrite Hterm.
  - apply readlines_write_all.
    + change (first :: nl :: ins ++ rest) with ([first; nl] ++ ins ++ rest).
      apply wf_lines_app_terminated; [cbn [forallb]; now rewrite Hterm |].
      now apply wf_lines_app_terminated.
    + change (first :: nl :: ins ++ rest) with ([first; nl] ++ ins ++ rest).
      rewrite !write_all_no_cr_app, Hcr, Hcr2. cbn [write_all].
      rewrite app_empty_r, no_char_app, Hcr1. reflexivity.
  - rewrite app_nil_r.
    assert (Hw : write_all (first :: nl :: ins) = write_all ((first +:+ nl) :: ins))
      by (cbn [write_all]; now rewrite app_assoc_s).
    rewrite Hw. apply readlines_write_all.
    + apply wf_lines_terminated. cbn [forallb].
      now rewrite terminated_snoc, Ht.
    + cbn [write_all]. rewrite !no_char_app, Hcr1, Hcr. reflexivity.
Qed.

(** *** The template as inserted *)

Section Template.

Variable CURRENT_YEAR : N.

Lemma TEMPLATE_head :
  LICENSE_BLOB_LINES_GO CURRENT_YEAR !! 0 = Some (HEADER_FIRST CURRENT_YEAR).
Proof. rewrite LICENSE_BLOB_LINES_GO_eq. reflexivity. Qed.

Lemma FULL_terminated :
  forallb terminated (LICENSE_BLOB_LINES_GO CURRENT_YEAR ++ [nl]) = true.
Proof.
  rewrite LICENSE_BLOB_LINES_GO_eq. cbn [app forallb].
  rewrite HEADER_FIRST_terminated. vm_compute. reflexivity.
Qed.

Lemma FULL_no_cr :
  no_char CR (write_all (LICENSE_BLOB_LINES_GO CURRENT_YEAR ++ [nl])) = true.
Proof.
  rewrite LICENSE_BLOB_LINES_GO_eq. cbn [app write_all].
  rewrite no_char_app, HEADER_FIRST_no_cr. vm_compute. reflexivity.
Qed.

End Template.

(** *** A trailing line feed does not create a match *)

Lemma prefix_by_snoc_nl (p x : string) :
  all_chars (fun a => negb (Ascii.eqb (lower a) (lower LF))) p = true ->
  prefix_by lower p (x +:+ nl) =
  option_map (fun r => r +:+ nl) (prefix_by lower p x).
Proof.
  revert x. induction p as [|a p IH]; intros x Hp; [reflexivity |].
  cbn [all_chars] in Hp. apply andb_true_iff in Hp as [Ha Hp].
  destruct x as [|b x]; unfold nl; cbn [String.append prefix_by option_map].
  - apply negb_true_iff in Ha. now rewrite Ha.
  - destruct (Ascii.eqb (lower a) (lower b)); [now apply IH | reflexivity].
Qed.

Lemma span_digits_snoc_nl (r : string) :
  fst (span_digits (r +:+ nl)) = fst (span_digits r).
Proof.
  induction r as [|c r IH]; [reflexivity |].
  cbn [String.append span_digits].
  destruct (isdigit c); [| reflexivity].
  destruct (span_digits (r +:+ nl)), (span_digits r). cbn [fst] in *.
  now rewrite IH.
Qed.

Lemma match_snoc_nl (x : string) :
  COPYRIGHT_RE_match (x +:+ nl) = COPYRIGHT_RE_match x.
Proof.
  unfold COPYRIGHT_RE_match.
  rewrite prefix_by_snoc_nl by reflexivity.
  destruct (prefix_by lower COPYRIGHT_LITERAL x) as [r|]; [| reflexivity].
  cbn [option_map]. now rewrite span_digits_snoc_nl.
Qed.

Lemma search_snoc_nl (x : string) :
  COPYRIGHT_RE_search (x +:+ nl) = COPYRIGHT_RE_search x.
Proof.
  induction x as [|c x IH]; [reflexivity |].
  rewrite (search_eq (String c x)), (search_eq (String c x +:+ nl)).
  rewrite match_snoc_nl.
  destruct (COPYRIGHT_RE_match (String c x)); [reflexivity |].
  exact IH.
Qed.

(** ** [int] reads back what ['%d'] prints *)

Lemma int_acc_of_uint (d : uint) (acc : positive) :
  fold_left (fun a c => (10 * a + (N_of_ascii c - 48))%N)
            (list_ascii_of_string (NilEmpty.string_of_uint d)) (Npos acc)
  = Npos (Pos.of_uint_acc d acc).
Proof.
  revert acc. induction d as [|d IH|d IH|d IH|d IH|d IH|d IH|d IH|d IH|d IH|d IH];
    intros acc; cbn [NilEmpty.string_of_uint list_ascii_of_string fold_left
                       Pos.of_uint_acc]; [reflexivity | ..].
  all: rewrite <- IH; f_equal; try (cbn; lia).
Qed.

Lemma int_value_of_uint (d : uint) :
  int_value (NilEmpty.string_of_uint d) = Pos.of_uint d.
Proof.
  unfold int_value.
  induction d as [|d IH|d IH|d IH|d IH|d IH|d IH|d IH|d IH|d IH|d IH];
    cbn [NilEmpty.string_of_uint list_ascii_of_string fold_left Pos.of_uint];
    [reflexivity | exact IH | apply (int_acc_of_uint d) ..].
Qed.

Lemma int_value_format_d (n : N) : int_value (format_d n) = n.
Proof.
  unfold format_d. rewrite int_value_of_uint. apply DecimalN.Unsigned.of_to.
Qed.

Lemma all_below_spec (k : nat) (n m : N) :
  all_below k n = true -> (n <= m)%N -> (m < n + N.of_nat k)%N ->
  String.length (format_d m) <= 4.
Proof.
  revert n. induction k as [|k IH]; intros n H Hle Hlt; [lia |].
  cbn [all_below] in H. apply andb_true_iff in H as [H1 H2].
  destruct (N.eq_dec n m) as [-> | Hne].
  - now apply Nat.leb_le.
  - apply (IH (N.succ n)); [assumption | lia | lia].
Qed.

(** A year of [datetime] prints in at most four digits. *)
Lemma format_d_short (n : N) :
  (n <= 9999)%N -> String.length (format_d n) <= 4.
Proof.
  intros H. apply (all_below_spec (N.to_nat 10000) 0%N);
    [vm_compute; reflexivity | lia | lia].
Qed.

Lemma four_within_limit : 4 <= INT_MAX_STR_DIGITS.
Proof. apply Nat.leb_le. vm_compute. reflexivity. Qed.

Lemma int_format_d (n : N) : (n <= 9999)%N -> int (format_d n) = inr n.
Proof.
  intros H. rewrite int_short, int_value_format_d; [reflexivity |].
  pose proof (format_d_short n H). pose proof four_within_limit. lia.
Qed.

(** ** What a run does to a file that exists *)

Section Summary.

Variable CURRENT_YEAR : N.

#[local] Abbreviation scan5 :=
  (fun ls : list string => scan CURRENT_YEAR (take 5 ls)).
#[local] Abbreviation H0 := (HEADER_FIRST CURRENT_YEAR).

(** The first template line as the first matched line of a window: the
    scan settles on it, unless the year it shows is too long to convert. *)
Lemma header_inside_cases (lines : list string) (g : string) :
  first_copyright_line lines H0 g ->
  scan5 lines = inl ValueError \/ scan5 lines = inr (true, true).
Proof.
  intros (pre & post & -> & Hpre & Hg).
  rewrite (scan_first_match CURRENT_YEAR pre post H0 g Hpre Hg).
  destruct (int_cases g) as [[_ ->] | [_ ->]]; [right | now left].
  now rewrite HEADER_FIRST_holder.
Qed.

Lemma header_inside_settled (lines : list string) (g : string) :
  (CURRENT_YEAR <= 9999)%N ->
  first_copyright_line lines H0 g ->
  scan5 lines = inr (true, true).
Proof.
  intros Hy (pre & post & -> & Hpre & Hg).
  rewrite (scan_first_match CURRENT_YEAR pre post H0 g Hpre Hg).
  rewrite HEADER_FIRST_search in Hg. injection Hg as <-.
  now rewrite int_format_d, HEADER_FIRST_holder.
Qed.

(** The file after a top insertion of the whole block. *)
Lemma header_inside_top (ls : list string) :
  first_copyright_line ((LICENSE_BLOB_LINES_GO CURRENT_YEAR ++ [nl]) ++ ls)
                       H0 (format_d CURRENT_YEAR).
Proof.
  rewrite LICENSE_BLOB_LINES_GO_eq. cbn [app firstn].
  eexists [], _. split; [reflexivity |].
  split; [constructor | apply HEADER_FIRST_search].
Qed.

Lemma header_inside_first (ls : list string) :
  first_copyright_line (H0 :: ls) H0 (format_d CURRENT_YEAR).
Proof.
  cbn [firstn]. eexists [], _. split; [reflexivity |].
  split; [constructor | apply HEADER_FIRST_search].
Qed.

Lemma header_inside_behind (first : string) (ls : list string) :
  COPYRIGHT_RE_search first = None ->
  first_copyright_line
    (first :: nl :: (LICENSE_BLOB_LINES_GO CURRENT_YEAR ++ [nl]) ++ ls)
    H0 (format_d CURRENT_YEAR).
Proof.
  intros H. rewrite LICENSE_BLOB_LINES_GO_eq. cbn [app firstn].
  eexists [first; nl], _. split; [reflexivity |].
  split; [| apply HEADER_FIRST_search].
  repeat constructor. assumption.
Qed.

Lemma header_inside_merged (first : string) :
  COPYRIGHT_RE_search first = None ->
  first_copyright_line
    ((first +:+ nl) :: LICENSE_BLOB_LINES_GO CURRENT_YEAR ++ [nl])
    H0 (format_d CURRENT_YEAR).
Proof.
  intros H. rewrite LICENSE_BLOB_LINES_GO_eq. cbn [app firstn].
  eexists [first +:+ nl], _. split; [reflexivity |].
  split; [| apply HEADER_FIRST_search].
  repeat constructor. now rewrite search_snoc_nl.
Qed.

Lemma shift_top (ins ls : list string) :
  length ls <= length (ins ++ ls)
  /\ drop (5 + (length (ins ++ ls) - length ls)) (ins ++ ls) = drop 5 ls.
Proof.
  rewrite length_app. split; [lia |].
  replace (5 + (length ins + length ls - length ls)) with (length ins + 5)
    by lia.
  apply drop_app_add.
Qed.

Lemma shift_behind (ins : list string) (first : string) (rest : list string) :
  length (first :: rest) <= length (first :: ins ++ rest)
  /\ drop (5 + (length (first :: ins ++ rest) - length (first :: rest)))
          (first :: ins ++ rest)
     = drop 5 (first :: rest).
Proof.
  cbn [length]. rewrite length_app. split; [lia |].
  replace (5 + (S (length ins + length rest) - S (length rest)))
    with (S (length ins + 4)) by lia.
  cbn [skipn]. apply drop_app_add.
Qed.

Lemma shift_merged (ins : list string) (first first' : string) :
  length [first] <= length (first' :: ins)
  /\ drop (5 + (length (first' :: ins) - length [first])) (first' :: ins)
     = drop 5 [first].
Proof.
  cbn [length]. split; [lia |].
  rewrite drop_ge by (cbn [length]; lia). reflexivity.
Qed.

(** The three ways a run on an existing file can end: nothing done, an
    exception before any write, or one rewrite.  After a rewrite the file
    holds no carriage return, it reads back with the first template line
    as the first matched line of its window, and with the lines that were
    read before behind the inserted ones. *)
Lemma run_shape (name : string) (w : world) (content : string) :
  fs w !! name = Some content ->
  update_go_license CURRENT_YEAR name w = Returned w
  \/ (exists e, update_go_license CURRENT_YEAR name w = Raised e w)
  \/ (exists lines' after,
        update_go_license CURRENT_YEAR name w
          = Returned (write_and_print name lines' w)
        /\ readlines (write_all lines') = after
        /\ no_char CR (write_all lines') = true
        /\ first_copyright_line after H0 (format_d CURRENT_YEAR)
        /\ length (readlines content) <= length after
        /\ drop (5 + (length after - length (readlines content))) after
           = drop 5 (readlines content)).
Proof.
  intros Hfs.
  pose proof (readlines_no_cr content) as Hcr.
  destruct (scan CURRENT_YEAR (take 5 (readlines content)))
    as [e | [[|] [|]]] eqn:Hscan.
  - right. left. exists e. now apply update_scan_raised with content.
  - left. now apply update_noop with content.
  - right. rewrite (update_single _ _ _ _ Hfs Hscan).
    destruct (readlines content) as [|first rest] eqn:Hread;
      [discriminate |].
    destruct (contains GENERATED_MARKER first) eqn:Hm.
    + left. exists TypeError. now rewrite replace_str_marker.
    + right. rewrite replace_str_plain by assumption.
      eexists _, _. split; [reflexivity |]. split; [reflexivity |].
      rewrite <- Hread.
      rewrite reread_chars
        by (apply HEADER_FIRST_terminated || apply HEADER_FIRST_no_cr).
      split; [| split; [apply header_inside_first |
                        apply (shift_top [HEADER_FIRST CURRENT_YEAR])]].
      rewrite write_all_chars_app. cbn [write_all].
      rewrite no_char_app, HEADER_FIRST_no_cr. rewrite Hread. exact Hcr.
  - apply scan_found_false in Hscan as [_ Hj]. discriminate Hj.
  - right. rewrite (update_full _ _ _ _ _ Hfs Hscan).
    destruct (readlines content) as [|first rest] eqn:Hread.
    { left. exists IndexError. reflexivity. }
    apply scan_found_false in Hscan as [Hnone _].
    cbn [firstn] in Hnone. apply Forall_cons in Hnone as [Hfirst _].
    pose proof (FULL_no_cr CURRENT_YEAR) as Hfull.
    assert (Hcr' := Hcr). cbn [write_all] in Hcr'. rewrite no_char_app in Hcr'.
    apply andb_true_iff in Hcr' as [Hcr1 Hcr2].
    destruct (contains GENERATED_MARKER first) eqn:Hm.
    + right. rewrite replace_list_marker by assumption.
      eexists _, _. split; [reflexivity |]. split; [reflexivity |].
      split.
      { change (first :: nl :: ?a ++ rest) with ([first; nl] ++ a ++ rest).
        rewrite (write_all_no_cr_app [first; nl]).
        rewrite (write_all_no_cr_app (_ ++ [nl]) rest), Hfull, Hcr2.
        cbn [write_all].
        rewrite app_empty_r, no_char_app, Hcr1. reflexivity. }
      rewrite (reread_after_first _ content first rest Hread)
        by (apply FULL_terminated || apply FULL_no_cr).
      pose proof (wf_lines_readlines content) as Hwf. rewrite Hread in Hwf.
      apply wf_lines_cons_inv in Hwf
        as [[Hterm Hrest] | (Hterm & Hnolf & Hne & ->)]; rewrite Hterm.
      * split; [now apply header_inside_behind |].
        apply (shift_behind (nl :: _ ++ [nl])).
      * split; [now apply header_inside_merged |].
        apply shift_merged.
    + right. rewrite replace_list_plain by assumption.
      eexists _, _. split; [reflexivity |]. split; [reflexivity |].
      rewrite <- Hread. split.
      { rewrite write_all_no_cr_app, Hfull. rewrite Hread. exact Hcr. }
      rewrite reread_top by (apply FULL_terminated || apply FULL_no_cr).
      split; [apply header_inside_top |]. apply shift_top.
Qed.

End Summary.

(** ** Case folding and the pattern *)

Lemma isdigit_lower (c : ascii) : isdigit (lower c) = isdigit c.
Proof. each_ascii c. Qed.

Lemma lower_digit (c : ascii) : isdigit c = true -> lower c = c.
Proof. each_ascii c. Qed.

Lemma lower_open_paren (c : ascii) :
  lower c = lower "("%char -> c = "("%char.
Proof. each_ascii c. Qed.

Lemma lower_close_paren (c : ascii) :
  lower c = lower ")"%char -> c = ")"%char.
Proof. each_ascii c. Qed.

Lemma lower_same_digit (a b : ascii) :
  lower a = lower b -> isdigit a = isdigit b /\ (isdigit a = true -> a = b).
Proof.
  intros H. assert (Hd : isdigit a = isdigit b)
    by (rewrite <- (isdigit_lower a), <- (isdigit_lower b); now rewrite H).
  split; [assumption |]. intros Ha.
  rewrite <- (lower_digit a Ha), H. apply lower_digit. congruence.
Qed.

Lemma prefix_by_casefold (p s s' : string) :
  casefold s = casefold s' ->
  option_map casefold (prefix_by lower p s) =
  option_map casefold (prefix_by lower p s').
Proof.
  revert s s'. induction p as [|a p IH]; intros s s' H.
  - cbn [prefix_by option_map]. now rewrite H.
  - destruct s as [|b s], s' as [|b' s']; try discriminate; [reflexivity |].
    cbn [casefold] in H. injection H as Hb Hs.
    cbn [prefix_by]. rewrite Hb.
    destruct (Ascii.eqb (lower a) (lower b')); [now apply IH | reflexivity].
Qed.

Lemma span_digits_casefold (r r' : string) :
  casefold r = casefold r' -> fst (span_digits r) = fst (span_digits r').
Proof.
  revert r'. induction r as [|c r IH]; intros [|c' r'] H; try discriminate;
    [reflexivity |].
  cbn [casefold] in H. injection H as Hc Hr.
  destruct (lower_same_digit c c' Hc) as [Hd Heq].
  cbn [span_digits]. rewrite <- Hd.
  destruct (isdigit c); [| reflexivity].
  specialize (IH r' Hr). rewrite (Heq eq_refl).
  destruct (span_digits r), (span_digits r'). cbn [fst] in *. now rewrite IH.
Qed.

Lemma match_casefold (s s' : string) :
  casefold s = casefold s' -> COPYRIGHT_RE_match s = COPYRIGHT_RE_match s'.
Proof.
  intros H. unfold COPYRIGHT_RE_match.
  pose proof (prefix_by_casefold COPYRIGHT_LITERAL s s' H) as Hp.
  destruct (prefix_by lower COPYRIGHT_LITERAL s) as [r|],
           (prefix_by lower COPYRIGHT_LITERAL s') as [r'|];
    try discriminate; [| reflexivity].
  cbn [option_map] in Hp. injection Hp as Hr.
  now rewrite (span_digits_casefold r r' Hr).
Qed.

Lemma search_casefold (s s' : string) :
  casefold s = casefold s' -> COPYRIGHT_RE_search s = COPYRIGHT_RE_search s'.
Proof.
  revert s'. induction s as [|c s IH]; intros [|c' s'] H; try discriminate;
    [reflexivity |].
  rewrite (search_eq (String c s)), (search_eq (String c' s')).
  rewrite (match_casefold _ _ H).
  destruct (COPYRIGHT_RE_match (String c' s')); [reflexivity |].
  cbn [casefold] in H. injection H as _ Hs. now apply IH.
Qed.

(** A character the folding leaves alone, present in the pattern, is
    present in every line the pattern matches. *)
Lemma prefix_by_needs_char (x : ascii) (p t r : string) :
  (forall c, lower c = lower x -> c = x) ->
  prefix_by lower p t = Some r ->
  no_char x p = false -> no_char x t = false.
Proof.
  intros Hx. revert t. induction p as [|a p IH]; intros t Hp Hno;
    [discriminate |].
  destruct t as [|b t]; [discriminate |].
  cbn [prefix_by] in Hp. rewrite no_char_cons in *.
  destruct (Ascii.eqb (lower a) (lower b)) eqn:E; [| discriminate].
  apply Ascii.eqb_eq in E.
  destruct (Ascii.eqb a x) eqn:Ea.
  - apply Ascii.eqb_eq in Ea. subst a. symmetry in E. apply Hx in E.
    subst b. now rewrite Ascii.eqb_refl.
  - cbn [negb andb] in Hno. rewrite (IH t Hp Hno). apply andb_false_r.
Qed.

Lemma search_needs_char (x : ascii) (s g : string) :
  (forall c, lower c = lower x -> c = x) ->
  no_char x COPYRIGHT_LITERAL = false ->
  COPYRIGHT_RE_search s = Some g -> no_char x s = false.
Proof.
  intros Hx Hlit. induction s as [|c s IH]; [discriminate |].
  rewrite search_eq. unfold COPYRIGHT_RE_match at 1.
  destruct (prefix_by lower COPYRIGHT_LITERAL (String c s)) as [r|] eqn:Hp.
  - intros _. now apply (prefix_by_needs_char x COPYRIGHT_LITERAL _ r).
  - intros H. rewrite no_char_cons, (IH H). apply andb_false_r.
Qed.

(** ** What the pattern finds *)

Lemma casefold_app (a b : string) :
  casefold (a +:+ b) = casefold a +:+ casefold b.
Proof. induction a as [|c a IH]; simpl; [reflexivity | now rewrite IH]. Qed.

Lemma prefix_by_split (p s r : string) :
  prefix_by lower p s = Some r ->
  exists lit, s = lit +:+ r /\ casefold lit = casefold p.
Proof.
  revert s. induction p as [|a p IH]; intros s H.
  - injection H as ->. now exists EmptyString.
  - destruct s as [|b s]; [discriminate |]. cbn [prefix_by] in H.
    destruct (Ascii.eqb (lower a) (lower b)) eqn:E; [| discriminate].
    apply Ascii.eqb_eq in E. destruct (IH s H) as (lit & -> & Hlit).
    exists (String b lit). split; [reflexivity |].
    cbn [casefold]. now rewrite Hlit, E.
Qed.

Lemma prefix_by_variant (p lit x : string) :
  casefold lit = casefold p -> prefix_by lower p (lit +:+ x) = Some x.
Proof.
  revert lit. induction p as [|a p IH]; intros [|b lit] H; try discriminate;
    [reflexivity |].
  cbn [casefold] in H. injection H as Hb Hl.
  cbn [String.append prefix_by]. rewrite Hb, Ascii.eqb_refl. now apply IH.
Qed.

Lemma span_digits_spec (r : string) :
  r = fst (span_digits r) +:+ snd (span_digits r)
  /\ all_chars isdigit (fst (span_digits r)) = true
  /\ match snd (span_digits r) with
     | EmptyString => True
     | String c _ => isdigit c = false
     end.
Proof.
  induction r as [|c r (IH1 & IH2 & IH3)]; [now repeat split |].
  cbn [span_digits]. destruct (isdigit c) eqn:E.
  - destruct (span_digits r) as [d post]. cbn [fst snd] in *.
    repeat split; [simpl; now rewrite <- IH1 | simpl; now rewrite E | assumption].
  - cbn [fst snd]. repeat split. assumption.
Qed.

Lemma match_sound (s g : string) :
  COPYRIGHT_RE_match s = Some g ->
  g <> EmptyString /\ all_chars isdigit g = true
  /\ exists lit post,
       s = lit +:+ g +:+ post
       /\ casefold lit = casefold COPYRIGHT_LITERAL
       /\ match post with
          | EmptyString => True
          | String c _ => isdigit c = false
          end.
Proof.
  unfold COPYRIGHT_RE_match.
  destruct (prefix_by lower COPYRIGHT_LITERAL s) as [r|] eqn:Hp; [| discriminate].
  destruct (prefix_by_split _ _ _ Hp) as (lit & -> & Hlit).
  destruct (span_digits_spec r) as (Hr & Hd & Hpost).
  destruct (fst (span_digits r)) as [|c d] eqn:E; [discriminate |].
  intros [= <-]. split; [discriminate |]. split; [assumption |].
  exists lit, (snd (span_digits r)). now rewrite <- Hr.
Qed.

Lemma search_captures_a_full_year_aux (s g : string) :
  COPYRIGHT_RE_search s = Some g ->
  g <> EmptyString /\ all_chars isdigit g = true
  /\ exists pre lit post,
       s = pre +:+ lit +:+ g +:+ post
       /\ casefold lit = casefold COPYRIGHT_LITERAL
       /\ match post with
          | EmptyString => True
          | String c _ => isdigit c = false
          end.
Proof.
  induction s as [|c s IH]; rewrite search_eq.
  - destruct (COPYRIGHT_RE_match EmptyString) eqn:E; [discriminate E | discriminate].
  - destruct (COPYRIGHT_RE_match (String c s)) as [g'|] eqn:E.
    + intros [= ->]. destruct (match_sound _ _ E) as (Hne & Hd & lit & post & H).
      split; [assumption |]. split; [assumption |].
      now exists EmptyString, lit, post.
    + intros H. destruct (IH H) as (Hne & Hd & pre & lit & post & -> & Hl & Hp).
      split; [assumption |]. split; [assumption |].
      now exists (String c pre), lit, post.
Qed.

(** X8: what a search captures is a run of digits, not empty, that stands
    in the line right behind a case variant of [Copyright (c) ] and is not
    followed by a further digit. *)
Theorem search_captures_a_full_year (s g : string) :
  COPYRIGHT_RE_search s = Some g ->
  g <> EmptyString /\ all_chars isdigit g = true
  /\ exists pre lit post,
       s = pre +:+ lit +:+ g +:+ post
       /\ casefold lit = casefold COPYRIGHT_LITERAL
       /\ match post with
          | EmptyString => True
          | String c _ => isdigit c = false
          end.
Proof. apply search_captures_a_full_year_aux. Qed.

Lemma search_variant (pre lit rest : string) (d : ascii) :
  casefold lit = casefold COPYRIGHT_LITERAL -> isdigit d = true ->
  COPYRIGHT_RE_search (pre +:+ lit +:+ String d rest) <> None.
Proof.
  intros Hlit Hd. induction pre as [|c pre IH]; rewrite search_eq.
  - change (EmptyString +:+ ?t) with t. unfold COPYRIGHT_RE_match.
    rewrite (prefix_by_variant _ _ _ Hlit). cbn [span_digits]. rewrite Hd.
    destruct (span_digits rest). discriminate.
  - destruct (COPYRIGHT_RE_match (String c pre +:+ lit +:+ String d rest));
      [discriminate | exact IH].
Qed.

Lemma search_detected_iff (s : string) :
  COPYRIGHT_RE_search s <> None <->
  exists pre lit d rest,
    s = pre +:+ lit +:+ String d rest
    /\ casefold lit = casefold COPYRIGHT_LITERAL
    /\ isdigit d = true.
Proof.
  split.
  - destruct (COPYRIGHT_RE_search s) as [g|] eqn:E; [| congruence].
    intros _.
    destruct (search_captures_a_full_year_aux s g E)
      as (Hne & Hd & pre & lit & post & -> & Hlit & _).
    destruct g as [|d g]; [congruence |].
    cbn [all_chars] in Hd. apply andb_true_iff in Hd as [Hd _].
    now exists pre, lit, d, (g +:+ post).
  - intros (pre & lit & d & rest & -> & Hlit & Hd). now apply search_variant.
Qed.

(** X9: a line is detected exactly when it contains, anywhere, a case
    variant of [Copyright (c) ] with a digit right behind it. *)
Theorem search_detects_exactly_the_variants (s : string) :
  COPYRIGHT_RE_search s <> None <->
  exists pre lit d rest,
    s = pre +:+ lit +:+ String d rest
    /\ casefold lit = casefold COPYRIGHT_LITERAL
    /\ isdigit d = true.
Proof. apply search_detected_iff. Qed.

(** ** The effects of a run *)

Section RunEffects.

Variable CURRENT_YEAR : N.

#[local] Abbreviation H0 := (HEADER_FIRST CURRENT_YEAR).

Lemma write_and_print_neq (name : string) (lines : list string) (w : world) :
  write_and_print name lines w <> w.
Proof.
  intros H. apply (f_equal (fun x => length (stdout x))) in H.
  cbn [write_and_print stdout] in H. rewrite length_app in H.
  cbn [length] in H. lia.
Qed.

Lemma first_copyright_line_scan (lines : list string) (line g : string) :
  first_copyright_line lines line g ->
  scan CURRENT_YEAR (take 5 lines) =
  match int g with
  | inl e => inl e
  | inr _ => inr (true, contains HOLDER line)
  end.
Proof.
  intros (pre & post & -> & Hpre & Hline). now apply scan_first_match.
Qed.

Lemma no_copyright_line_scan (lines : list string) :
  no_copyright_line lines ->
  scan CURRENT_YEAR (take 5 lines) = inr (false, false).
Proof. apply scan_no_match. Qed.

(** A run ends in one of three ways, also on a path that is not there. *)
Lemma update_cases (name : string) (w : world) :
  update_go_license CURRENT_YEAR name w = Returned w
  \/ (exists e, update_go_license CURRENT_YEAR name w = Raised e w)
  \/ (exists c lines',
        fs w !! name = Some c
        /\ update_go_license CURRENT_YEAR name w
           = Returned (write_and_print name lines' w)
        /\ no_char CR (write_all lines') = true
        /\ first_copyright_line (readlines (write_all lines')) H0
                                (format_d CURRENT_YEAR)).
Proof.
  destruct (fs w !! name) as [c|] eqn:Hfs.
  - destruct (run_shape CURRENT_YEAR name w c Hfs)
      as [H | [H | (lines' & after & H & <- & Hcr & Hin & _)]]; eauto 10.
  - right. left. exists FileNotFoundError. now apply update_missing.
Qed.

Lemma settled_iff (name : string) (w : world) :
  settled CURRENT_YEAR name w <->
  exists c, fs w !! name = Some c
            /\ scan CURRENT_YEAR (take 5 (readlines c)) = inr (true, true).
Proof.
  unfold settled. split.
  - intros H. destruct (fs w !! name) as [c|] eqn:Hfs.
    2: { rewrite update_missing in H by assumption. discriminate. }
    exists c. split; [reflexivity |].
    destruct (scan CURRENT_YEAR (take 5 (readlines c)))
      as [e | [[|] [|]]] eqn:Hs; [exfalso | reflexivity | exfalso ..].
    + rewrite (update_scan_raised _ _ _ _ _ Hfs Hs) in H. discriminate.
    + rewrite (update_single _ _ _ _ Hfs Hs) in H.
      destruct (replace _ _); [discriminate |].
      injection H as H. now apply write_and_print_neq in H.
    + rewrite (update_full _ _ _ _ _ Hfs Hs) in H.
      destruct (replace _ _); [discriminate |].
      injection H as H. now apply write_and_print_neq in H.
    + rewrite (update_full _ _ _ _ _ Hfs Hs) in H.
      destruct (replace _ _); [discriminate |].
      injection H as H. now apply write_and_print_neq in H.
  - intros (c & Hfs & Hs). now apply update_noop with c.
Qed.

(** With a year of [datetime], the world a returning run leaves is
    settled for the same path. *)
Lemma update_settles (name : string) (w w' : world) :
  (CURRENT_YEAR <= 9999)%N ->
  update_go_license CURRENT_YEAR name w = Returned w' ->
  settled CURRENT_YEAR name w'.
Proof.
  intros Hy H.
  destruct (update_cases name w)
    as [Hr | [[e Hr] | (c & lines' & Hfs & Hr & _ & Hin)]];
    rewrite Hr in H; try discriminate; injection H as <-.
  - exact Hr.
  - apply settled_iff. exists (write_all lines').
    split; [apply lookup_insert_eq |].
    now apply header_inside_settled with (format_d CURRENT_YEAR).
Qed.

(** For every year, the world a returning run leaves is one that the
    next run on the same path leaves alone. *)
Lemma settled_left_alone (name : string) (w : world) :
  settled CURRENT_YEAR name w -> left_alone CURRENT_YEAR name w.
Proof.
  intros (c & Hfs & Hs)%settled_iff. exists c. auto.
Qed.

Lemma left_alone_cases (name : string) (w : world) :
  left_alone CURRENT_YEAR name w ->
  update_go_license CURRENT_YEAR name w = Returned w
  \/ update_go_license CURRENT_YEAR name w = Raised ValueError w.
Proof.
  intros (c & Hfs & [Hs | Hs]).
  - left. now apply update_noop with c.
  - right. now apply update_scan_raised with c.
Qed.

Lemma left_alone_world (name : string) (w : world) :
  left_alone CURRENT_YEAR name w ->
  world_of (update_go_license CURRENT_YEAR name w) = w.
Proof. now intros [-> | ->]%left_alone_cases. Qed.

Lemma update_leaves_alone (name : string) (w w' : world) :
  update_go_license CURRENT_YEAR name w = Returned w' ->
  left_alone CURRENT_YEAR name w'.
Proof.
  intros H.
  destruct (update_cases name w)
    as [Hr | [[e Hr] | (c & lines' & Hfs & Hr & _ & Hin)]];
    rewrite Hr in H; try discriminate; injection H as <-.
  - now apply settled_left_alone.
  - exists (write_all lines'). split; [apply lookup_insert_eq |].
    destruct (header_inside_cases CURRENT_YEAR _ _ Hin); auto.
Qed.

Lemma update_raise_keeps_world (name : string) (w w' : world) (e : exn) :
  update_go_license CURRENT_YEAR name w = Raised e w' -> w' = w.
Proof.
  intros H.
  destruct (update_cases name w)
    as [Hr | [[e' Hr] | (c & lines' & _ & Hr & _)]];
    rewrite Hr in H; try discriminate. now injection H as _ <-.
Qed.

Lemma update_frame (name path : string) (w : world) :
  path <> name ->
  fs (world_of (update_go_license CURRENT_YEAR name w)) !! path = fs w !! path.
Proof.
  intros Hne.
  destruct (update_cases name w)
    as [Hr | [[e Hr] | (c & lines' & _ & Hr & _)]]; rewrite Hr;
    cbn [world_of write_and_print fs]; [reflexivity .. |].
  now apply lookup_insert_ne.
Qed.

Lemma update_dom (name : string) (w : world) :
  dom (fs (world_of (update_go_license CURRENT_YEAR name w))) = dom (fs w).
Proof.
  destruct (update_cases name w)
    as [Hr | [[e Hr] | (c & lines' & Hfs & Hr & _)]]; rewrite Hr;
    cbn [world_of write_and_print fs]; [reflexivity .. |].
  apply dom_insert_lookup_L. now exists c.
Qed.

(** A rewrite changes the content: a file that holds what a rewrite
    leaves is not rewritten. *)
Lemma update_prints_or_not (name : string) (w : world) :
  update_go_license CURRENT_YEAR name w = Returned w
  \/ (exists e, update_go_license CURRENT_YEAR name w = Raised e w)
  \/ (exists c c',
        fs w !! name = Some c /\ c' <> c
        /\ update_go_license CURRENT_YEAR name w
           = Returned (World (<[name := c']> (fs w)) (stdout w ++ [name]))).
Proof.
  destruct (update_cases name w)
    as [Hr | [Hr | (c & lines' & Hfs & Hr & _ & Hin)]]; [auto | auto |].
  right. right. exists c, (write_all lines').
  split; [assumption |]. split; [| exact Hr].
  intros Heq. rewrite Heq in Hin.
  destruct (header_inside_cases CURRENT_YEAR _ _ Hin) as [Hs | Hs].
  - rewrite (update_scan_raised _ _ _ _ _ Hfs Hs) in Hr. discriminate.
  - rewrite (update_noop _ _ _ _ Hfs Hs) in Hr.
    injection Hr as Hr. symmetry in Hr. now apply write_and_print_neq in Hr.
Qed.


End RunEffects.

(** ** The decisions of a run *)

Lemma readlines_keepends (content : string) :
  no_char CR content = true -> readlines content = keepends content.
Proof. intros H. unfold readlines. now rewrite translate_newlines_id. Qed.

Section Claims.

Variable CURRENT_YEAR : N.

#[local] Abbreviation H0 := (HEADER_FIRST CURRENT_YEAR).

(** What the full-header path does on a file that has a first line. *)
Lemma update_full_nonempty (name : string) (w : world) (content first : string)
      (rest : list string) :
  fs w !! name = Some content ->
  no_copyright_line (readlines content) ->
  readlines content = first :: rest ->
  update_go_license CURRENT_YEAR name w =
  Returned (write_and_print name
              (if contains GENERATED_MARKER first
               then first :: nl :: (LICENSE_BLOB_LINES_GO CURRENT_YEAR ++ [nl])
                          ++ rest
               else (LICENSE_BLOB_LINES_GO CURRENT_YEAR ++ [nl])
                      ++ first :: rest) w).
Proof.
  intros Hfs Hno Hread.
  rewrite (update_full _ _ _ _ _ Hfs (no_copyright_line_scan _ _ Hno)), Hread.
  destruct (contains GENERATED_MARKER first) eqn:Hm.
  - now rewrite replace_list_marker.
  - now rewrite replace_list_plain.
Qed.

(** A matched line with the holder token: the run returns without a
    change, unless the conversion of the year raises. *)
Lemma update_holder_line (name : string) (w : world) (content line g : string) :
  fs w !! name = Some content ->
  first_copyright_line (readlines content) line g ->
  contains HOLDER line = true ->
  (String.length g <= INT_MAX_STR_DIGITS ->
   int g = inr (int_value g)
   /\ update_go_license CURRENT_YEAR name w = Returned w)
  /\ (INT_MAX_STR_DIGITS < String.length g ->
      int g = inl ValueError
      /\ update_go_license CURRENT_YEAR name w = Raised ValueError w).
Proof.
  intros Hfs Hfirst Hholder.
  pose proof (first_copyright_line_scan CURRENT_YEAR _ _ _ Hfirst) as Hscan.
  split; intros Hlen.
  - rewrite (int_short g Hlen) in Hscan |- *. split; [reflexivity |].
    apply update_noop with content; [assumption |]. now rewrite Hscan, Hholder.
  - rewrite (int_long g Hlen) in Hscan |- *. split; [reflexivity |].
    now apply update_scan_raised with content.
Qed.

(** C1, as amended: when the first matched copyright line of the first
    five lines shows the current year and contains the holder token, the
    run changes nothing.  With a year of at most 4300 digits it returns:
    the file keeps its content and nothing is printed.  With a longer
    run of digits [int] raises [ValueError], and the run raises it with
    the file and the output as they were. *)
Theorem current_year_with_holder_is_noop
        (name : string) (w : world) (content line g : string) :
  fs w !! name = Some content ->
  first_copyright_line (readlines content) line g ->
  int_value g = CURRENT_YEAR ->
  contains HOLDER line = true ->
  (String.length g <= INT_MAX_STR_DIGITS ->
   int g = inr CURRENT_YEAR
   /\ update_go_license CURRENT_YEAR name w = Returned w)
  /\ (INT_MAX_STR_DIGITS < String.length g ->
      int g = inl ValueError
      /\ update_go_license CURRENT_YEAR name w = Raised ValueError w).
Proof.
  intros Hfs Hfirst Hyear Hholder. rewrite <- Hyear at 1.
  now apply update_holder_line with content line.
Qed.

(** C7: when the first matched copyright line of the first five lines
    shows a past year and contains the holder token, the file and the
    output are left as they were, and the year stays as it is.  With a
    year of at most 4300 digits the run returns; with a longer run of
    digits it raises the [ValueError] of [int], again without a write
    or a print. *)
Theorem past_year_with_holder_is_noop
        (name : string) (w : world) (content line g : string) :
  fs w !! name = Some content ->
  first_copyright_line (readlines content) line g ->
  (int_value g < CURRENT_YEAR)%N ->
  contains HOLDER line = true ->
  world_of (update_go_license CURRENT_YEAR name w) = w
  /\ (String.length g <= INT_MAX_STR_DIGITS ->
      update_go_license CURRENT_YEAR name w = Returned w)
  /\ (INT_MAX_STR_DIGITS < String.length g ->
      update_go_license CURRENT_YEAR name w = Raised ValueError w).
Proof.
  intros Hfs Hfirst _ Hholder.
  destruct (update_holder_line name w content line g Hfs Hfirst Hholder)
    as [Hshort Hlong].
  split; [| split].
  - destruct (int_cases g) as [[Hlen _] | [Hlen _]].
    + destruct (Hshort Hlen) as [_ ->]. reflexivity.
    + destruct (Hlong Hlen) as [_ ->]. reflexivity.
  - intros Hlen. now destruct (Hshort Hlen).
  - intros Hlen. now destruct (Hlong Hlen).
Qed.

(** C3, as amended: when the first matched copyright line shows a past
    year of at most 4300 digits and lacks the holder token, and the first
    line of the file lacks the generated-file marker, the file is
    rewritten as the first template line followed by the text as it was
    read, that is with every CRLF and lone CR turned into LF, and its
    path is printed.  The new content reads back as that one line
    followed by the lines read; for a file without carriage returns it
    is the first template line followed by the original bytes.  With a
    longer run of digits the run raises [ValueError] and writes
    nothing. *)
Theorem past_year_without_holder_inserts_first_line
        (name : string) (w : world) (content line g first : string) :
  fs w !! name = Some content ->
  first_copyright_line (readlines content) line g ->
  (int_value g < CURRENT_YEAR)%N ->
  contains HOLDER line = false ->
  head (readlines content) = Some first ->
  contains GENERATED_MARKER first = false ->
  let content' := HEADER_FIRST CURRENT_YEAR +:+ translate_newlines content in
  (String.length g <= INT_MAX_STR_DIGITS ->
   update_go_license CURRENT_YEAR name w
   = Returned (World (<[name := content']> (fs w)) (stdout w ++ [name])))
  /\ (INT_MAX_STR_DIGITS < String.length g ->
      update_go_license CURRENT_YEAR name w = Raised ValueError w)
  /\ keepends content' = HEADER_FIRST CURRENT_YEAR :: readlines content
  /\ readlines content' = HEADER_FIRST CURRENT_YEAR :: readlines content
  /\ LICENSE_BLOB_LINES_GO CURRENT_YEAR !! 0 = Some (HEADER_FIRST CURRENT_YEAR)
  /\ (no_char CR content = true ->
      content' = HEADER_FIRST CURRENT_YEAR +:+ content
      /\ keepends content' = HEADER_FIRST CURRENT_YEAR :: keepends content).
Proof.
  intros Hfs Hfirst _ Hholder Hhead Hmarker content'.
  assert (Hw : write_all (chars (HEADER_FIRST CURRENT_YEAR) ++ readlines content)
               = content').
  { rewrite write_all_chars_app. cbn [write_all].
    now rewrite write_all_readlines. }
  assert (Hkeep : keepends content'
                  = HEADER_FIRST CURRENT_YEAR :: readlines content).
  { unfold content'. rewrite keepends_terminated
      by apply HEADER_FIRST_terminated. reflexivity. }
  pose proof (first_copyright_line_scan CURRENT_YEAR _ _ _ Hfirst) as Hscan.
  rewrite Hholder in Hscan.
  split; [| split; [| split; [| split; [| split]]]].
  - intros Hlen. rewrite (int_short g Hlen) in Hscan.
    rewrite (update_single _ _ _ _ Hfs Hscan).
    destruct (readlines content) as [|l rest] eqn:Hread; [discriminate |].
    injection Hhead as ->.
    rewrite replace_str_plain by assumption.
    unfold write_and_print. now rewrite Hw.
  - intros Hlen. rewrite (int_long g Hlen) in Hscan.
    now apply update_scan_raised with content.
  - exact Hkeep.
  - rewrite <- Hw. apply reread_chars.
    + apply HEADER_FIRST_terminated.
    + apply HEADER_FIRST_no_cr.
  - apply TEMPLATE_head.
  - intros Hcr. rewrite Hkeep. unfold content'.
    rewrite (readlines_keepends content Hcr).
    now rewrite (translate_newlines_id content Hcr).
Qed.

(** C2, on the code: with the marker on the first line and a first
    matched copyright line that shows a past year and lacks the holder
    token, the run raises before any write, so nothing is inserted and
    nothing is printed: [TypeError] from [replace] when the year has at
    most 4300 digits, and the [ValueError] of [int] when it has more. *)
Theorem marker_with_single_line_raises_TypeError
        (name : string) (w : world) (content line g first : string) :
  fs w !! name = Some content ->
  first_copyright_line (readlines content) line g ->
  (int_value g < CURRENT_YEAR)%N ->
  contains HOLDER line = false ->
  head (readlines content) = Some first ->
  contains GENERATED_MARKER first = true ->
  update_go_license CURRENT_YEAR name w
  = Raised (if (INT_MAX_STR_DIGITS <? String.length g)%nat
            then ValueError else TypeError) w.
Proof.
  intros Hfs Hfirst _ Hholder Hhead Hmarker.
  pose proof (first_copyright_line_scan CURRENT_YEAR _ _ _ Hfirst) as Hscan.
  rewrite Hholder, int_test in Hscan.
  destruct (INT_MAX_STR_DIGITS <? String.length g)%nat.
  - now apply update_scan_raised with content.
  - rewrite (update_single _ _ _ _ Hfs Hscan).
    destruct (readlines content) as [|l rest] eqn:Hread; [discriminate |].
    injection Hhead as ->.
    now rewrite replace_str_marker.
Qed.

Lemma update_on_empty (name : string) (w : world) :
  fs w !! name = Some EmptyString ->
  update_go_license CURRENT_YEAR name w = Raised IndexError w.
Proof.
  intros Hfs.
  rewrite (update_full _ _ _ EmptyString false Hfs); reflexivity.
Qed.

(** C10: on a file of zero lines the run raises [IndexError] from the
    access to the first line in [replace]; no header is inserted, and the
    file and the output stay as they were. *)
Theorem empty_file_raises_IndexError (name : string) (w : world) :
  fs w !! name = Some EmptyString ->
  readlines EmptyString = []
  /\ replace (PyList (LICENSE_BLOB_LINES_GO CURRENT_YEAR ++ [nl])) [] = inl IndexError
  /\ update_go_license CURRENT_YEAR name w = Raised IndexError w.
Proof.
  intros Hfs. split; [reflexivity |]. split; [reflexivity |].
  now apply update_on_empty.
Qed.

(** C8: a run that returns leaves a world that the next run on the same
    path leaves as it is: the file is not rewritten again and its path
    is not printed again, so two runs give what one run gives.  With the
    current year a year of [datetime] (at most 9999) the next run
    returns. *)
Theorem second_run_is_noop (name : string) (w w1 : world) :
  update_go_license CURRENT_YEAR name w = Returned w1 ->
  world_of (update_go_license CURRENT_YEAR name w1) = w1
  /\ ((CURRENT_YEAR <= 9999)%N ->
      update_go_license CURRENT_YEAR name w1 = Returned w1).
Proof.
  intros Hrun. split.
  - apply left_alone_world. now apply update_leaves_alone with w.
  - intros Hy. exact (update_settles _ _ _ _ Hy Hrun).
Qed.



End Claims.

(** ** The derived template, line by line *)

Lemma lookup_map {A B : Type} (f : A -> B) (l : list A) (i : nat) :
  map f l !! i = option_map f (l !! i).
Proof.
  revert i. induction l as [|x l IH]; intros [|i]; try reflexivity.
  apply IH.
Qed.

(** C5, as amended: every line of the derived template is the line of the
    license text with the comment prefix put in front and the result then
    stripped at both ends, followed by a line feed.  In front of a line
    that is not blank this is the prefix and the line without its trailing
    whitespace; for a blank line it is [//] alone, the space of the prefix
    being stripped as well. *)
Theorem template_line_is_prefixed_then_stripped
        (year : N) (i : nat) (l : string) :
  split_nl (LICENSE_BLOB year) !! i = Some l ->
  LICENSE_BLOB_LINES_GO year !! i = Some (strip (COMMENT_PREFIX +:+ l) +:+ nl)
  /\ (rstrip l <> EmptyString ->
      strip (COMMENT_PREFIX +:+ l) = COMMENT_PREFIX +:+ rstrip l)
  /\ (rstrip l = EmptyString -> strip (COMMENT_PREFIX +:+ l) = "//").
Proof.
  intros Hl. split; [| split].
  - rewrite LICENSE_BLOB_LINES_GO_unfold, lookup_map, Hl. reflexivity.
  - intros Hne. rewrite strip_prefixed.
    destruct (rstrip l); [congruence | reflexivity].
  - intros He. now rewrite strip_prefixed, He.
Qed.

(** C4, as amended: the pattern folds case over its whole literal part,
    the [c] between the parentheses included.  A line is detected
    exactly when it holds a case variant of [Copyright (c) ] with a
    digit right behind it, so [copyright (c) 2020] and
    [Copyright (C) 2020] are both detected, with the same year; two
    lines that differ only in the case of their letters are detected
    alike; and a detected line holds both parentheses. *)
Theorem pattern_folds_case_throughout (s s' : string) :
  casefold s = casefold s' ->
  COPYRIGHT_RE_search s = COPYRIGHT_RE_search s'
  /\ (COPYRIGHT_RE_search s <> None <->
      exists pre lit d rest,
        s = pre +:+ lit +:+ String d rest
        /\ casefold lit = casefold COPYRIGHT_LITERAL
        /\ isdigit d = true)
  /\ (COPYRIGHT_RE_search s <> None ->
      no_char "("%char s = false /\ no_char ")"%char s = false)
  /\ COPYRIGHT_RE_search "copyright (c) 2020" = Some "2020"
  /\ COPYRIGHT_RE_search "Copyright (C) 2020" = Some "2020".
Proof.
  intros H. split; [now apply search_casefold |].
  split; [apply search_detected_iff |].
  split; [| split; reflexivity].
  intros Hs. destruct (COPYRIGHT_RE_search s) as [g|] eqn:E; [| congruence].
  split.
  - apply (search_needs_char _ s g); [apply lower_open_paren | reflexivity | assumption].
  - apply (search_needs_char _ s g); [apply lower_close_paren | reflexivity | assumption].
Qed.

(** ** Concrete runs *)

(** C1, as stated, fails: the matched line shows the current year, the
    holder token is absent, and the file is rewritten and reported. *)
Lemma current_year_without_holder_is_rewritten :
  first_copyright_line (readlines other_corp_current)
    "// Copyright (c) 2026 Some Other Corp
" "2026"
  /\ int "2026" = inr EXAMPLE_YEAR
  /\ update_go_license EXAMPLE_YEAR "a.go" (single_file "a.go" other_corp_current)
     = Returned (World {[ "a.go" := HEADER_FIRST EXAMPLE_YEAR +:+ other_corp_current ]}
                       ["a.go"])
  /\ update_go_license EXAMPLE_YEAR "a.go" (single_file "a.go" other_corp_current)
     <> Returned (single_file "a.go" other_corp_current).
Proof.
  split; [first_line_here |]. split; [reflexivity |].
  split; [vm_compute; reflexivity |].
  vm_compute. discriminate.
Qed.

Lemma current_year_with_holder_is_noop_witness :
  (int "2026" = inr EXAMPLE_YEAR
   /\ update_go_license EXAMPLE_YEAR "a.go" (single_file "a.go" jaeger_current)
      = Returned (single_file "a.go" jaeger_current))
  /\ (int long_2026 = inl ValueError
      /\ update_go_license EXAMPLE_YEAR "a.go"
           (single_file "a.go" (holder_line long_2026 +:+ package_foo))
         = Raised ValueError
             (single_file "a.go" (holder_line long_2026 +:+ package_foo))).
Proof.
  split.
  - apply (current_year_with_holder_is_noop EXAMPLE_YEAR "a.go" _ jaeger_current
             "// Copyright (c) 2026 The Jaeger Authors.
" "2026").
    + reflexivity.
    + first_line_here.
    + reflexivity.
    + reflexivity.
    + apply Nat.leb_le. vm_compute. reflexivity.
  - apply (current_year_with_holder_is_noop EXAMPLE_YEAR "a.go" _
             (holder_line long_2026 +:+ package_foo)
             (holder_line long_2026) long_2026).
    + reflexivity.
    + exists [], [package_foo]. split; [vm_compute; reflexivity |].
      split; [constructor | vm_compute; reflexivity].
    + vm_compute. reflexivity.
    + vm_compute. reflexivity.
    + apply Nat.ltb_lt. vm_compute. reflexivity.
Defined.

Lemma past_year_with_holder_is_noop_witness :
  world_of (update_go_license EXAMPLE_YEAR "a.go"
              (single_file "a.go" jaeger_past))
  = single_file "a.go" jaeger_past
  /\ update_go_license EXAMPLE_YEAR "a.go" (single_file "a.go" jaeger_past)
     = Returned (single_file "a.go" jaeger_past).
Proof.
  destruct (past_year_with_holder_is_noop EXAMPLE_YEAR "a.go"
              (single_file "a.go" jaeger_past) jaeger_past
              "// Copyright (c) 2019 The Jaeger Authors.
" "2019") as (Hworld & Hshort & _).
  - reflexivity.
  - first_line_here.
  - reflexivity.
  - reflexivity.
  - split; [exact Hworld |]. apply Hshort.
    apply Nat.leb_le. vm_compute. reflexivity.
Defined.

(** C3, as stated, fails on a file with DOS line ends: the matched line
    shows a past year and lacks the holder token, the first line has no
    marker, and the file is rewritten with every line end a line feed,
    so what follows the inserted line is not the original lines. *)
Lemma past_year_without_holder_rewrites_line_ends :
  first_copyright_line (readlines other_corp_past_crlf)
    "// Copyright (c) 2019 Some Other Corp
" "2019"
  /\ int "2019" = inr 2019%N
  /\ (2019 < EXAMPLE_YEAR)%N
  /\ contains HOLDER "// Copyright (c) 2019 Some Other Corp
" = false
  /\ contains GENERATED_MARKER "// Copyright (c) 2019 Some Other Corp
" = false
  /\ update_go_license EXAMPLE_YEAR "a.go"
       (single_file "a.go" other_corp_past_crlf)
     = Returned (World {[ "a.go" := HEADER_FIRST EXAMPLE_YEAR +:+ other_corp_past ]}
                       ["a.go"])
  /\ HEADER_FIRST EXAMPLE_YEAR +:+ other_corp_past
     <> HEADER_FIRST EXAMPLE_YEAR +:+ other_corp_past_crlf
  /\ keepends (HEADER_FIRST EXAMPLE_YEAR +:+ other_corp_past)
     <> HEADER_FIRST EXAMPLE_YEAR :: keepends other_corp_past_crlf.
Proof.
  split; [first_line_here |]. split; [reflexivity |].
  split; [reflexivity |]. split; [reflexivity |]. split; [reflexivity |].
  split; [vm_compute; reflexivity |].
  split; vm_compute; discriminate.
Qed.

Lemma past_year_without_holder_inserts_first_line_witness :
  update_go_license EXAMPLE_YEAR "a.go" (single_file "a.go" other_corp_past)
  = Returned (World (<["a.go" := HEADER_FIRST EXAMPLE_YEAR
                                  +:+ translate_newlines other_corp_past]>
                       (fs (single_file "a.go" other_corp_past)))
                    (stdout (single_file "a.go" other_corp_past) ++ ["a.go"]))
  /\ HEADER_FIRST EXAMPLE_YEAR +:+ translate_newlines other_corp_past
     = HEADER_FIRST EXAMPLE_YEAR +:+ other_corp_past
  /\ keepends (HEADER_FIRST EXAMPLE_YEAR +:+ translate_newlines other_corp_past)
     = HEADER_FIRST EXAMPLE_YEAR :: keepends other_corp_past.
Proof.
  destruct (past_year_without_holder_inserts_first_line EXAMPLE_YEAR "a.go"
              (single_file "a.go" other_corp_past) other_corp_past
              "// Copyright (c) 2019 Some Other Corp
" "2019" "// Copyright (c) 2019 Some Other Corp
") as (Hshort & _ & _ & _ & _ & Hbytes).
  - reflexivity.
  - first_line_here.
  - reflexivity.
  - reflexivity.
  - reflexivity.
  - reflexivity.
  - split.
    + apply Hshort. apply Nat.leb_le. vm_compute. reflexivity.
    + apply Hbytes. reflexivity.
Defined.

Lemma marker_with_single_line_raises_TypeError_witness :
  update_go_license EXAMPLE_YEAR "a.go"
    (single_file "a.go" generated_other_corp_past)
  = Raised TypeError (single_file "a.go" generated_other_corp_past).
Proof.
  apply (marker_with_single_line_raises_TypeError EXAMPLE_YEAR "a.go" _
           generated_other_corp_past
           "// Copyright (c) 2019 Some Other Corp
" "2019" "// Code generated by tool
").
  - reflexivity.
  - eexists ["// Code generated by tool
"], _. split; [reflexivity |].
    split; [repeat constructor | reflexivity].
  - reflexivity.
  - reflexivity.
  - reflexivity.
  - reflexivity.
Defined.

(** C6, on the code: the empty file has no copyright line in its first
    five lines, and the run raises [IndexError] instead of inserting the
    header block; nothing is written and nothing is reported. *)
Theorem empty_file_gets_no_header :
  no_copyright_line (readlines EmptyString)
  /\ update_go_license EXAMPLE_YEAR "a.go" (single_file "a.go" EmptyString)
     = Raised IndexError (single_file "a.go" EmptyString).
Proof.
  split; [constructor |]. apply update_on_empty. reflexivity.
Qed.

Lemma empty_file_raises_IndexError_witness :
  readlines EmptyString = []
  /\ replace (PyList (LICENSE_BLOB_LINES_GO EXAMPLE_YEAR ++ [nl])) []
     = inl IndexError
  /\ update_go_license EXAMPLE_YEAR "a.go" (single_file "a.go" EmptyString)
     = Raised IndexError (single_file "a.go" EmptyString).
Proof.
  apply (empty_file_raises_IndexError EXAMPLE_YEAR "a.go").
  reflexivity.
Defined.

Lemma second_run_is_noop_witness :
  world_of (update_go_license EXAMPLE_YEAR "a.go"
              (World {[ "a.go" := HEADER_FIRST EXAMPLE_YEAR +:+ other_corp_past ]}
                     ["a.go"]))
  = World {[ "a.go" := HEADER_FIRST EXAMPLE_YEAR +:+ other_corp_past ]} ["a.go"]
  /\ update_go_license EXAMPLE_YEAR "a.go"
       (World {[ "a.go" := HEADER_FIRST EXAMPLE_YEAR +:+ other_corp_past ]}
              ["a.go"])
     = Returned
         (World {[ "a.go" := HEADER_FIRST EXAMPLE_YEAR +:+ other_corp_past ]}
                ["a.go"]).
Proof.
  destruct (second_run_is_noop EXAMPLE_YEAR "a.go"
              (single_file "a.go" other_corp_past)
              (World {[ "a.go" := HEADER_FIRST EXAMPLE_YEAR +:+ other_corp_past ]}
                     ["a.go"])) as [Hworld Hret].
  - vm_compute. reflexivity.
  - split; [exact Hworld |]. apply Hret. vm_compute. discriminate.
Defined.



(** C5, as stated, fails on the blank line at index 1: trimming first and
    prefixing afterwards would leave the prefix with its space, and the
    derived line is [//] and a line feed. *)
Lemma blank_template_line_loses_prefix_space :
  split_nl (LICENSE_BLOB EXAMPLE_YEAR) !! 1 = Some EmptyString
  /\ LICENSE_BLOB_LINES_GO EXAMPLE_YEAR !! 1 = Some ("//" +:+ nl)
  /\ LICENSE_BLOB_LINES_GO EXAMPLE_YEAR !! 1
     <> Some (COMMENT_PREFIX +:+ rstrip EmptyString +:+ nl).
Proof.
  split; [vm_compute; reflexivity |]. split; [vm_compute; reflexivity |].
  vm_compute. discriminate.
Qed.

Lemma template_line_is_prefixed_then_stripped_witness :
  LICENSE_BLOB_LINES_GO EXAMPLE_YEAR !! 1
  = Some (strip (COMMENT_PREFIX +:+ EmptyString) +:+ nl)
  /\ (rstrip EmptyString <> EmptyString ->
      strip (COMMENT_PREFIX +:+ EmptyString)
      = COMMENT_PREFIX +:+ rstrip EmptyString)
  /\ (rstrip EmptyString = EmptyString ->
      strip (COMMENT_PREFIX +:+ EmptyString) = "//").
Proof.
  apply (template_line_is_prefixed_then_stripped EXAMPLE_YEAR 1 EmptyString).
  vm_compute. reflexivity.
Defined.

(** C4, as stated, fails: a line with an uppercase [(C)] is detected. *)
Lemma uppercase_c_is_detected :
  COPYRIGHT_RE_search "// Copyright (C) 2020 Some Corp" = Some "2020"
  /\ COPYRIGHT_RE_search "// Copyright (C) 2020 Some Corp" <> None.
Proof. split; [reflexivity | discriminate]. Qed.

Lemma pattern_folds_case_throughout_witness :
  COPYRIGHT_RE_search "// copyright (c) 2020 Some Corp"
  = COPYRIGHT_RE_search "// COPYRIGHT (C) 2020 some corp"
  /\ COPYRIGHT_RE_search "// copyright (c) 2020 Some Corp" <> None.
Proof.
  destruct (pattern_folds_case_throughout
              "// copyright (c) 2020 Some Corp" "// COPYRIGHT (C) 2020 some corp")
    as (Hsame & Hiff & _).
  - reflexivity.
  - split; [exact Hsame |]. apply Hiff.
    exists "// ", "copyright (c) ", "2"%char, "020 Some Corp".
    split; [reflexivity |]. split; reflexivity.
Defined.

(** * Further properties of a run *)

(** X1: a run on one path leaves every other file as it is, whether it
    returns or raises. *)
Theorem update_changes_only_its_file (year : N) (name path : string) (w : world) :
  path <> name ->
  fs (world_of (update_go_license year name w)) !! path = fs w !! path.
Proof. apply update_frame. Qed.

(** X2: a run neither creates nor removes a file: a path that does not
    exist is not created, and the files present stay present. *)
Theorem update_keeps_the_set_of_files (year : N) (name : string) (w : world) :
  dom (fs (world_of (update_go_license year name w))) = dom (fs w).
Proof. apply update_dom. Qed.


(** X5: the year a matched line shows has no part in the decision: the
    scan gives the same answer for every current year, so a file that
    needs no edit this year needs none in any other year. *)
Theorem decision_ignores_the_year (year year' : N) (name : string) (w : world) :
  (forall ls, scan year ls = scan year' ls)
  /\ (update_go_license year name w = Returned w <->
      update_go_license year' name w = Returned w).
Proof.
  split; [intros ls; apply scan_any_year |].
  pose proof (settled_iff year name w) as Hiff.
  pose proof (settled_iff year' name w) as Hiff'.
  unfold settled in Hiff, Hiff'. rewrite Hiff, Hiff'.
  split; intros (c & Hfs & Hs); exists c; split; auto.
  - now rewrite <- (scan_any_year year year').
  - now rewrite (scan_any_year year year').
Qed.

(** X4: a rewrite is one insertion into the text as it was read: the new
    content is the old content, with its line ends read as line feeds,
    cut at the start or behind its first line, with the first template
    line, the whole block, or a blank line and the whole block put in
    between.  Nothing of the old text is dropped or reordered, and the new
    content holds no carriage return. *)
Theorem rewrite_is_one_insertion
        (year : N) (name : string) (w w' : world) (c : string) :
  fs w !! name = Some c ->
  update_go_license year name w = Returned w' ->
  w' <> w ->
  exists x y ins,
    translate_newlines c = x +:+ y
    /\ fs w' !! name = Some (x +:+ ins +:+ y)
    /\ (x = EmptyString \/ head (readlines c) = Some x)
    /\ (ins = HEADER_FIRST year \/ ins = FULL_BLOCK year
        \/ ins = nl +:+ FULL_BLOCK year)
    /\ no_char CR (x +:+ ins +:+ y) = true.
Proof.
  intros Hfs Hrun Hne.
  pose proof (readlines_no_cr c) as Hcr.
  pose proof (write_all_readlines c) as Hall.
  destruct (scan year (take 5 (readlines c))) as [e | [[|] j]] eqn:Hs.
  - rewrite (update_scan_raised _ _ _ _ _ Hfs Hs) in Hrun. discriminate.
  - destruct j.
    { rewrite (update_noop _ _ _ _ Hfs Hs) in Hrun. now injection Hrun as <-. }
    rewrite (update_single _ _ _ _ Hfs Hs) in Hrun.
    destruct (readlines c) as [|first rest] eqn:Hread; [discriminate |].
    destruct (contains GENERATED_MARKER first) eqn:Hm.
    { now rewrite replace_str_marker in Hrun. }
    rewrite replace_str_plain in Hrun by assumption. apply (f_equal world_of) in Hrun. cbn [world_of] in Hrun. subst w'.
    exists EmptyString, (translate_newlines c), (HEADER_FIRST year).
    split; [reflexivity |]. cbn [write_and_print fs].
    rewrite lookup_insert_eq, write_all_chars_app.
    change (write_all (HEADER_FIRST year :: first :: rest))
      with (HEADER_FIRST year +:+ write_all (first :: rest)).
    rewrite Hall. split; [reflexivity |]. split; [now left |].
    split; [now left |].
    change (EmptyString +:+ ?t) with t.
    now rewrite no_char_app, HEADER_FIRST_no_cr, translate_newlines_no_cr.
  - rewrite (update_full _ _ _ _ _ Hfs Hs) in Hrun.
    destruct (readlines c) as [|first rest] eqn:Hread; [discriminate |].
    cbn [write_all] in Hcr, Hall. rewrite no_char_app in Hcr.
    apply andb_true_iff in Hcr as [Hcr1 Hcr2].
    pose proof (FULL_no_cr year) as Hfull.
    destruct (contains GENERATED_MARKER first) eqn:Hm.
    + rewrite replace_list_marker in Hrun by assumption. apply (f_equal world_of) in Hrun. cbn [world_of] in Hrun. subst w'.
      exists first, (write_all rest), (nl +:+ FULL_BLOCK year).
      split; [now rewrite Hall |]. cbn [write_and_print fs].
      rewrite lookup_insert_eq. cbn [write_all].
      rewrite write_all_app. unfold FULL_BLOCK. rewrite !app_assoc_s.
      split; [reflexivity |]. split; [now right |].
      split; [now right; right |].
      rewrite !no_char_app, Hcr1, Hcr2, Hfull. reflexivity.
    + rewrite replace_list_plain in Hrun by assumption. apply (f_equal world_of) in Hrun. cbn [world_of] in Hrun. subst w'.
      exists EmptyString, (translate_newlines c), (FULL_BLOCK year).
      split; [reflexivity |]. cbn [write_and_print fs].
      rewrite lookup_insert_eq, write_all_app.
      change (write_all (first :: rest)) with (first +:+ write_all rest).
      rewrite Hall. split; [reflexivity |]. split; [now left |].
      split; [now right; left |].
      change (EmptyString +:+ ?t) with t. unfold FULL_BLOCK.
      now rewrite no_char_app, Hfull, translate_newlines_no_cr.
Qed.

(** * Further properties of the template and of the pattern *)

(** X6: the first template line is itself a line the scan settles on: the
    pattern matches it, the year it captures has the value of the
    current year, and it contains the holder token; with the current
    year a year of [datetime] (at most 9999), [int] converts the
    captured year to it. *)
Theorem template_recognises_itself (year : N) :
  exists h0 g,
    LICENSE_BLOB_LINES_GO year !! 0 = Some h0
    /\ COPYRIGHT_RE_search h0 = Some g
    /\ int_value g = year
    /\ contains HOLDER h0 = true
    /\ ((year <= 9999)%N -> int g = inr year).
Proof.
  exists (HEADER_FIRST year), (format_d year).
  split; [apply TEMPLATE_head |]. split; [apply HEADER_FIRST_search |].
  split; [apply int_value_format_d |].
  split; [apply HEADER_FIRST_holder | apply int_format_d].
Qed.

(** ** The shape of the template lines *)

Lemma rstrip_fixed_app (a b : string) :
  rstrip b = b -> b <> EmptyString -> rstrip (a +:+ b) = a +:+ b.
Proof.
  intros Hb Hne. rewrite rstrip_app; rewrite Hb; [reflexivity | assumption].
Qed.

(** X7: for every year the template has thirteen lines, and each of them
    is [//], a text without line feed, and one line feed, with no
    whitespace left in front of the line feed. *)
Theorem template_lines_are_clean (year : N) (l : string) :
  l ∈ LICENSE_BLOB_LINES_GO year ->
  length (LICENSE_BLOB_LINES_GO year) = 13
  /\ exists body,
       l = "//" +:+ body +:+ nl
       /\ no_char LF body = true
       /\ rstrip ("//" +:+ body) = "//" +:+ body.
Proof.
  rewrite LICENSE_BLOB_LINES_GO_eq. intros Hl. split; [reflexivity |].
  apply elem_of_cons in Hl as [-> | Hl].
  - exists (" Copyright (c) " +:+ format_d year +:+ " The Jaeger Authors.").
    split; [| split].
    + unfold HEADER_FIRST. rewrite <- !app_assoc_s. reflexivity.
    + rewrite !no_char_app.
      rewrite (digits_no_char LF (format_d year))
        by (reflexivity || apply format_d_digits).
      reflexivity.
    + assert (H1 : rstrip (format_d year +:+ " The Jaeger Authors.")
                   = format_d year +:+ " The Jaeger Authors.")
        by (apply rstrip_fixed_app; [reflexivity | discriminate]).
      apply rstrip_fixed_app;
        [| apply app_nonempty_r, app_nonempty_r; discriminate].
      apply rstrip_fixed_app; [exact H1 | apply app_nonempty_r; discriminate].
  - unfold HEADER_REST in Hl.
    repeat (apply elem_of_cons in Hl as [-> | Hl]);
      [ lazymatch goal with
        | |- exists body, ?t = _ /\ _ =>
            exists (String.substring 2 (String.length t - 3) t);
            vm_compute; repeat split; reflexivity
        end .. | ].
    now apply elem_of_nil in Hl.
Qed.


(** * Properties of the driver *)

Section Batch.

Variable CURRENT_YEAR : N.

#[local] Abbreviation run_files := (process_files CURRENT_YEAR).
#[local] Abbreviation run := (update_go_license CURRENT_YEAR).
#[local] Abbreviation is_settled := (settled CURRENT_YEAR).
#[local] Abbreviation is_left_alone := (left_alone CURRENT_YEAR).

Lemma process_eta (p : process) : Process (state p) (logged p) = p.
Proof. now destruct p. Qed.

Lemma run_files_cons_returned (name : string) rest (p : process) (w' : world) :
  endswith ".go" name = true ->
  run name (state p) = Returned w' ->
  run_files (name :: rest) p = run_files rest (Process w' (logged p)).
Proof. intros He Hr. cbn [process_files]. now rewrite He, Hr. Qed.

(** A step of the loop that goes on. *)
Lemma run_files_cons_finished (name : string) rest (p p1 : process) :
  run_files (name :: rest) p = Finished p1 ->
  endswith ".go" name = true
  /\ exists w', run name (state p) = Returned w'
                /\ run_files rest (Process w' (logged p)) = Finished p1.
Proof.
  cbn [process_files]. destruct (endswith ".go" name); [| discriminate].
  destruct (run name (state p)) as [w'|e w']; [| discriminate]. eauto.
Qed.

(** Whether a file is settled is read off that file alone. *)
Lemma settled_local (n : string) (w w' : world) :
  fs w' !! n = fs w !! n -> is_settled n w -> is_settled n w'.
Proof.
  intros Hf (c & Hfs & Hs)%settled_iff. apply settled_iff.
  exists c. split; [now rewrite Hf | assumption].
Qed.

(** A file that is left alone stays so, with its content, through a
    returning run on any path. *)
Lemma left_alone_preserved (n m : string) (w w' : world) :
  is_left_alone n w -> run m w = Returned w' ->
  is_left_alone n w' /\ fs w' !! n = fs w !! n.
Proof.
  intros Hn Hm. destruct (decide (n = m)) as [-> | Hne].
  - destruct (left_alone_cases _ _ _ Hn) as [Hr | Hr]; rewrite Hr in Hm;
      [| discriminate].
    injection Hm as <-. auto.
  - pose proof (update_frame CURRENT_YEAR m n w Hne) as Hf.
    rewrite Hm in Hf. cbn [world_of] in Hf. split; [| exact Hf].
    destruct Hn as (c & Hfs & Hs). exists c. split; [now rewrite Hf | exact Hs].
Qed.

Lemma run_files_keep_left_alone (n : string) names (p p1 : process) :
  is_left_alone n (state p) -> run_files names p = Finished p1 ->
  is_left_alone n (state p1) /\ fs (state p1) !! n = fs (state p) !! n.
Proof.
  revert p. induction names as [|m names IH]; intros p Hn H.
  - injection H as <-. auto.
  - apply run_files_cons_finished in H as (_ & w' & Hm & H).
    destruct (left_alone_preserved _ _ _ _ Hn Hm) as [Hn' Hf'].
    destruct (IH (Process w' (logged p)) Hn' H) as [Hs Hf].
    split; [assumption |]. rewrite Hf. exact Hf'.
Qed.

Lemma run_files_logged (names : list string) (p p1 : process) :
  run_files names p = Finished p1 -> logged p1 = logged p.
Proof.
  revert p. induction names as [|m names IH]; intros p H.
  - now injection H as <-.
  - apply run_files_cons_finished in H as (_ & w' & _ & H).
    exact (IH _ H).
Qed.

(** After a batch that finishes, every file named is left alone. *)
Lemma run_files_leave_alone (names : list string) (p p1 : process) :
  run_files names p = Finished p1 ->
  forall n, n ∈ names ->
            endswith ".go" n = true /\ is_left_alone n (state p1).
Proof.
  revert p. induction names as [|m names IH]; intros p H.
  - intros n Hn. now apply elem_of_nil in Hn.
  - apply run_files_cons_finished in H as (Hgo & w' & Hm & H).
    intros n [-> | Hn]%elem_of_cons; [| now apply (IH _ H)].
    split; [assumption |].
    apply (run_files_keep_left_alone m names (Process w' (logged p)));
      [| assumption].
    now apply update_leaves_alone with (state p).
Qed.

(** With a year of [datetime], every file named is settled. *)
Lemma run_files_settle (names : list string) (p p1 : process) :
  (CURRENT_YEAR <= 9999)%N ->
  run_files names p = Finished p1 ->
  forall n, n ∈ names ->
            endswith ".go" n = true /\ is_settled n (state p1).
Proof.
  intros Hy. revert p. induction names as [|m names IH]; intros p H.
  - intros n Hn. now apply elem_of_nil in Hn.
  - apply run_files_cons_finished in H as (Hgo & w' & Hm & H).
    intros n [-> | Hn]%elem_of_cons; [| now apply (IH _ H)].
    split; [assumption |].
    pose proof (update_settles CURRENT_YEAR m (state p) w' Hy Hm) as Hset.
    destruct (run_files_keep_left_alone m names (Process w' (logged p)) p1
                (settled_left_alone _ _ _ Hset) H) as [_ Hf].
    exact (settled_local m w' (state p1) Hf Hset).
Qed.

Lemma run_files_of_settled (names : list string) (p : process) :
  (forall n, n ∈ names ->
             endswith ".go" n = true /\ is_settled n (state p)) ->
  run_files names p = Finished p.
Proof.
  induction names as [|m names IH]; intros Hall; [reflexivity |].
  destruct (Hall m) as [Hgo Hs]; [now left |].
  rewrite (run_files_cons_returned m names p (state p) Hgo Hs), process_eta.
  apply IH. intros n Hn. apply Hall. now right.
Qed.

(** A batch over files that are left alone writes and prints nothing. *)
Lemma run_files_of_left_alone (names : list string) (p : process) :
  (forall n, n ∈ names ->
             endswith ".go" n = true /\ is_left_alone n (state p)) ->
  state (process_of (run_files names p)) = state p.
Proof.
  induction names as [|m names IH]; intros Hall; [reflexivity |].
  destruct (Hall m) as [Hgo Hs]; [now left |].
  cbn [process_files]. rewrite Hgo.
  destruct (left_alone_cases _ _ _ Hs) as [Hr | Hr]; rewrite Hr;
    [| reflexivity].
  rewrite process_eta. apply IH. intros n Hn. apply Hall. now right.
Qed.

Lemma run_files_frame (names : list string) (p : process) (path : string) :
  path ∉ names ->
  fs (state (process_of (run_files names p))) !! path = fs (state p) !! path.
Proof.
  revert p. induction names as [|m names IH]; intros p Hnot; [reflexivity |].
  apply not_elem_of_cons in Hnot as [Hne Hnot].
  pose proof (update_frame CURRENT_YEAR m path (state p) Hne) as Hf.
  cbn [process_files]. destruct (endswith ".go" m); [| reflexivity].
  destruct (run m (state p)) as [w'|e w']; cbn [world_of] in Hf.
  - now rewrite IH.
  - exact Hf.
Qed.

Lemma run_files_dom (names : list string) (p : process) :
  dom (fs (state (process_of (run_files names p)))) = dom (fs (state p)).
Proof.
  revert p. induction names as [|m names IH]; intros p; [reflexivity |].
  pose proof (update_dom CURRENT_YEAR m (state p)) as Hd.
  cbn [process_files]. destruct (endswith ".go" m); [| reflexivity].
  destruct (run m (state p)) as [w'|e w']; cbn [world_of] in Hd.
  - now rewrite IH.
  - exact Hd.
Qed.

Lemma run_files_printed (names : list string) (p p1 : process) :
  run_files names p = Finished p1 ->
  exists printed,
    stdout (state p1) = stdout (state p) ++ printed
    /\ NoDup printed
    /\ sublist printed names
    /\ forall n, n ∈ printed <-> fs (state p1) !! n <> fs (state p) !! n.
Proof.
  revert p. induction names as [|m names IH]; intros p H.
  - injection H as <-. exists []. rewrite app_nil_r.
    repeat split; [constructor | constructor | | congruence].
    intros Hn. now apply elem_of_nil in Hn.
  - apply run_files_cons_finished in H as (_ & w' & Hm & H).
    destruct (IH _ H) as (printed & Hout & Hnd & Hsub & Hiff).
    cbn [state] in Hout, Hiff.
    destruct (update_prints_or_not CURRENT_YEAR m (state p))
      as [Hr | [[e Hr] | (c & c' & Hfs & Hne & Hr)]];
      rewrite Hr in Hm; try discriminate; injection Hm as <-.
    + exists printed. split; [assumption |]. split; [assumption |].
      split; [now apply sublist_cons | exact Hiff].
    + cbn [stdout] in Hout. exists (m :: printed).
      assert (Hkeep : fs (state p1) !! m = Some c').
      { pose proof (update_leaves_alone CURRENT_YEAR m (state p) _ Hr) as Hset.
        destruct (run_files_keep_left_alone m names (Process _ (logged p)) p1
                    Hset H) as [_ ->].
        apply lookup_insert_eq. }
      split; [now rewrite Hout, <- app_assoc |].
      split; [| split; [now apply sublist_skip |]].
      * constructor; [| assumption]. rewrite Hiff. cbn [fs].
        rewrite lookup_insert_eq. intros Hx. now apply Hx.
      * intros n. rewrite elem_of_cons, Hiff. cbn [fs].
        destruct (decide (n = m)) as [-> | Hnm].
        -- rewrite Hkeep, Hfs. split; [intros _; congruence | now left].
        -- rewrite lookup_insert_ne by congruence. tauto.
Qed.


Lemma run_files_unsupported (names : list string) (p : process) (name : string) :
  name ∈ names -> endswith ".go" name = false ->
  exists f p1, run_files names p = Aborted f p1.
Proof.
  revert p. induction names as [|m names IH]; intros p Hin Hno.
  - now apply elem_of_nil in Hin.
  - cbn [process_files]. destruct (endswith ".go" m) eqn:Hgo.
    + apply elem_of_cons in Hin as [-> | Hin]; [congruence |].
      destruct (run m (state p)); [now apply IH | eauto].
    + eauto.
Qed.

End Batch.

Lemma main_cases (year : N) (argv : list string) (p : process) :
  (exists prog,
      argv = [prog]
      /\ main year argv p
         = Aborted (SystemExit 1)
                   (Process (World (fs (state p))
                                   (stdout (state p)
                                    ++ ["USAGE: " +:+ prog +:+ " FILE ..."]))
                            (logged p)))
  \/ (length argv <> 1
      /\ main year argv p = process_files year (drop 1 argv) p).
Proof.
  destruct argv as [|prog [|a rest]].
  - right. split; [discriminate | reflexivity].
  - left. now exists prog.
  - right. split; [discriminate | reflexivity].
Qed.

(** X10: [main] leaves every file that is not among its arguments as it
    is, however the batch ends. *)
Theorem main_changes_only_named_files
        (year : N) (argv : list string) (p : process) (path : string) :
  path ∉ drop 1 argv ->
  fs (state (process_of (main year argv p))) !! path = fs (state p) !! path.
Proof.
  intros Hnot.
  destruct (main_cases year argv p) as [(prog & -> & ->) | [_ ->]];
    [reflexivity |].
  now apply run_files_frame.
Qed.

(** X11: [main] neither creates nor removes a file, however the batch
    ends. *)
Theorem main_keeps_the_set_of_files (year : N) (argv : list string) (p : process) :
  dom (fs (state (process_of (main year argv p)))) = dom (fs (state p)).
Proof.
  destruct (main_cases year argv p) as [(prog & -> & ->) | [_ ->]];
    [reflexivity |].
  apply run_files_dom.
Qed.

(** X12: a batch that finishes leaves a state that the same batch leaves
    as it is, writing and printing nothing; with the current year a year
    of [datetime] (at most 9999) the second batch finishes, and logs
    nothing either. *)
Theorem main_second_batch_is_noop
        (year : N) (argv : list string) (p p1 : process) :
  main year argv p = Finished p1 ->
  state (process_of (main year argv p1)) = state p1
  /\ ((year <= 9999)%N -> main year argv p1 = Finished p1).
Proof.
  intros H.
  destruct (main_cases year argv p) as [(prog & -> & Hm) | [Hlen Hm]];
    rewrite Hm in H; [discriminate |].
  destruct (main_cases year argv p1) as [(prog & -> & _) | [_ ->]];
    [now contradiction Hlen |].
  split.
  - apply run_files_of_left_alone.
    exact (run_files_leave_alone year (drop 1 argv) p p1 H).
  - intros Hy. apply run_files_of_settled.
    exact (run_files_settle year (drop 1 argv) p p1 Hy H).
Qed.

(** X13: when a batch finishes, what it printed is the list of the paths
    whose file it changed: each of them once, also when a path is passed
    several times, in the order of the arguments, and no other path; the
    logging stream got nothing. *)
Theorem main_prints_exactly_the_changed_files
        (year : N) (argv : list string) (p p1 : process) :
  main year argv p = Finished p1 ->
  logged p1 = logged p
  /\ exists printed,
       stdout (state p1) = stdout (state p) ++ printed
       /\ NoDup printed
       /\ sublist printed (drop 1 argv)
       /\ forall n, n ∈ printed <-> fs (state p1) !! n <> fs (state p) !! n.
Proof.
  intros H.
  destruct (main_cases year argv p) as [(prog & -> & Hm) | [Hlen Hm]];
    rewrite Hm in H; [discriminate |].
  split; [exact (run_files_logged year (drop 1 argv) p p1 H) |].
  exact (run_files_printed year (drop 1 argv) p p1 H).
Qed.


(** X15: an argument that does not end in [.go] is never skipped: with
    such an argument anywhere in the list, [main] does not finish. *)
Theorem main_never_skips_an_unsupported_name
        (year : N) (argv : list string) (p : process) (name : string) :
  name ∈ drop 1 argv -> endswith ".go" name = false ->
  exists f p1, main year argv p = Aborted f p1.
Proof.
  intros Hin Hno.
  destruct (main_cases year argv p) as [(prog & -> & Hm) | [_ ->]].
  - now apply elem_of_nil in Hin.
  - exact (run_files_unsupported year (drop 1 argv) p name Hin Hno).
Qed.

(** ** Concrete runs and batches *)

Lemma update_changes_only_its_file_witness :
  fs (world_of (update_go_license EXAMPLE_YEAR "a.go" two_files)) !! "b.go"
  = fs two_files !! "b.go".
Proof.
  apply (update_changes_only_its_file EXAMPLE_YEAR "a.go" "b.go" two_files).
  discriminate.
Defined.

Lemma rewrite_is_one_insertion_witness :
  exists x y ins,
    translate_newlines other_corp_past = x +:+ y
    /\ fs two_files_done !! "a.go" = Some (x +:+ ins +:+ y)
    /\ (x = EmptyString \/ head (readlines other_corp_past) = Some x)
    /\ (ins = HEADER_FIRST EXAMPLE_YEAR \/ ins = FULL_BLOCK EXAMPLE_YEAR
        \/ ins = nl +:+ FULL_BLOCK EXAMPLE_YEAR)
    /\ no_char CR (x +:+ ins +:+ y) = true.
Proof.
  apply (rewrite_is_one_insertion EXAMPLE_YEAR "a.go" two_files two_files_done
           other_corp_past).
  - reflexivity.
  - vm_compute. reflexivity.
  - discriminate.
Defined.

Lemma template_lines_are_clean_witness :
  length (LICENSE_BLOB_LINES_GO EXAMPLE_YEAR) = 13
  /\ exists body,
       "// http://www.apache.org/licenses/LICENSE-2.0
" = "//" +:+ body +:+ nl
       /\ no_char LF body = true
       /\ rstrip ("//" +:+ body) = "//" +:+ body.
Proof.
  apply (template_lines_are_clean EXAMPLE_YEAR).
  apply (list_elem_of_lookup_2 _ 6). vm_compute. reflexivity.
Defined.

Lemma search_captures_a_full_year_witness :
  "2019" <> EmptyString /\ all_chars isdigit "2019" = true
  /\ exists pre lit post,
       "// copyright (C) 2019 Some Other Corp" = pre +:+ lit +:+ "2019" +:+ post
       /\ casefold lit = casefold COPYRIGHT_LITERAL
       /\ match post with
          | EmptyString => True
          | String c _ => isdigit c = false
          end.
Proof.
  apply (search_captures_a_full_year "// copyright (C) 2019 Some Other Corp").
  reflexivity.
Defined.

Lemma template_recognises_itself_witness :
  exists h0 g,
    LICENSE_BLOB_LINES_GO EXAMPLE_YEAR !! 0 = Some h0
    /\ COPYRIGHT_RE_search h0 = Some g
    /\ contains HOLDER h0 = true
    /\ int g = inr EXAMPLE_YEAR.
Proof.
  destruct (template_recognises_itself EXAMPLE_YEAR)
    as (h0 & g & Hhead & Hsearch & _ & Hholder & Hint).
  exists h0, g. split; [exact Hhead |]. split; [exact Hsearch |].
  split; [exact Hholder |]. apply Hint. vm_compute. discriminate.
Defined.

Lemma main_changes_only_named_files_witness :
  fs (state (process_of (main EXAMPLE_YEAR ["updateLicense.py"; "a.go"]
                              (fresh two_files)))) !! "b.go"
  = fs (state (fresh two_files)) !! "b.go".
Proof.
  apply (main_changes_only_named_files EXAMPLE_YEAR
           ["updateLicense.py"; "a.go"] (fresh two_files) "b.go").
  apply not_elem_of_cons. split; [discriminate | apply not_elem_of_nil].
Defined.

Lemma main_second_batch_is_noop_witness :
  state (process_of (main EXAMPLE_YEAR
                          ["updateLicense.py"; "a.go"; "b.go"; "a.go"]
                          (fresh two_files_done)))
  = state (fresh two_files_done)
  /\ main EXAMPLE_YEAR ["updateLicense.py"; "a.go"; "b.go"; "a.go"]
          (fresh two_files_done)
     = Finished (fresh two_files_done).
Proof.
  destruct (main_second_batch_is_noop EXAMPLE_YEAR
              ["updateLicense.py"; "a.go"; "b.go"; "a.go"] (fresh two_files)
              (fresh two_files_done)) as [Hstate Hfin].
  - vm_compute. reflexivity.
  - split; [exact Hstate |]. apply Hfin. vm_compute. discriminate.
Defined.

Lemma main_prints_exactly_the_changed_files_witness :
  logged (fresh two_files_done) = logged (fresh two_files)
  /\ exists printed,
       stdout (state (fresh two_files_done))
       = stdout (state (fresh two_files)) ++ printed
       /\ NoDup printed
       /\ sublist printed
                  (drop 1 ["updateLicense.py"; "a.go"; "b.go"; "a.go"])
       /\ forall n,
            n ∈ printed <->
            fs (state (fresh two_files_done)) !! n
            <> fs (state (fresh two_files)) !! n.
Proof.
  apply (main_prints_exactly_the_changed_files EXAMPLE_YEAR
           ["updateLicense.py"; "a.go"; "b.go"; "a.go"]).
  vm_compute. reflexivity.
Defined.


Lemma main_never_skips_an_unsupported_name_witness :
  exists f p1,
    main EXAMPLE_YEAR ["updateLicense.py"; "a.go"; "README.md"; "b.go"]
         (fresh two_files)
    = Aborted f p1.
Proof.
  apply (main_never_skips_an_unsupported_name EXAMPLE_YEAR
           ["updateLicense.py"; "a.go"; "README.md"; "b.go"]
           (fresh two_files) "README.md").
  - apply (list_elem_of_lookup_2 _ 1). reflexivity.
  - reflexivity.
Defined.

(** * The decision table of a run *)

Lemma scan_true_first_line (year : N) (lines : list string) (j : bool) :
  scan year (take 5 lines) = inr (true, j) <->
  exists line g,
    first_copyright_line lines line g
    /\ String.length g <= INT_MAX_STR_DIGITS
    /\ contains HOLDER line = j.
Proof.
  split.
  - intros H. apply scan_found_true in H
      as (pre & line & post & g & y & Heq & Hpre & Hl & Hy & ->).
    exists line, g. apply int_inr in Hy as [Hlen _].
    split; [now exists pre, post | auto].
  - intros (line & g & Hfirst & Hlen & <-).
    rewrite (first_copyright_line_scan year _ _ _ Hfirst).
    now rewrite (int_short g Hlen).
Qed.

Lemma scan_raised_first_line (year : N) (lines : list string) (e : exn) :
  scan year (take 5 lines) = inl e <->
  e = ValueError
  /\ exists line g,
       first_copyright_line lines line g
       /\ INT_MAX_STR_DIGITS < String.length g.
Proof.
  split.
  - intros H. apply scan_raised in H
      as (pre & line & post & g & Heq & Hpre & Hl & Hy).
    apply int_inl in Hy as [Hlen ->]. split; [reflexivity |].
    exists line, g. split; [now exists pre, post | assumption].
  - intros (-> & line & g & Hfirst & Hlen).
    rewrite (first_copyright_line_scan year _ _ _ Hfirst).
    now rewrite (int_long g Hlen).
Qed.

Lemma keepends_nil (s : string) : keepends s = [] -> s = EmptyString.
Proof.
  destruct s as [|c s]; [reflexivity |]. cbn [keepends].
  destruct (Ascii.eqb c LF); [discriminate |].
  destruct (keepends s); discriminate.
Qed.

Lemma translate_newlines_nil (s : string) :
  translate_newlines s = EmptyString -> s = EmptyString.
Proof.
  destruct s as [|c s]; [reflexivity |]. cbn [translate_newlines].
  destruct (Ascii.eqb c CR); [| discriminate].
  destruct s as [|c' s]; [discriminate |].
  destruct (Ascii.eqb c' LF); discriminate.
Qed.

Lemma readlines_nil (c : string) : readlines c = [] <-> c = EmptyString.
Proof.
  split; [| now intros ->].
  intros H. now apply translate_newlines_nil, keepends_nil.
Qed.

(** X16: a run returns without touching anything exactly when the file
    exists and the first of its first five lines that the pattern matches
    contains the holder token and shows a year of at most 4300 digits,
    the most that [int] converts. *)
Theorem noop_exactly_on_a_holder_line (year : N) (name : string) (w : world) :
  update_go_license year name w = Returned w <->
  exists c line g,
    fs w !! name = Some c
    /\ first_copyright_line (readlines c) line g
    /\ String.length g <= INT_MAX_STR_DIGITS
    /\ contains HOLDER line = true.
Proof.
  pose proof (settled_iff year name w) as Hiff. unfold settled in Hiff.
  rewrite Hiff. split.
  - intros (c & Hfs & Hs). apply scan_true_first_line in Hs
      as (line & g & Hfirst & Hlen & Hh). now exists c, line, g.
  - intros (c & line & g & Hfs & Hfirst & Hlen & Hh). exists c.
    split; [assumption |]. apply scan_true_first_line. now exists line, g.
Qed.

(** X17: the four exceptions of the model and their causes, each raised
    with the world as it was: [FileNotFoundError] exactly when the path
    is not there; [ValueError] exactly when the first matched line of
    the window shows a year of more than 4300 digits; [IndexError]
    exactly when the file is empty; [TypeError] exactly when the first
    matched line shows a year that converts and lacks the holder token
    while the first line of the file holds the generated-file marker. *)
Theorem update_raises_exactly_when
        (year : N) (name : string) (w w' : world) (e : exn) :
  update_go_license year name w = Raised e w' <->
  w' = w
  /\ match e with
     | FileNotFoundError => fs w !! name = None
     | ValueError =>
         exists c line g,
           fs w !! name = Some c
           /\ first_copyright_line (readlines c) line g
           /\ INT_MAX_STR_DIGITS < String.length g
     | IndexError => fs w !! name = Some EmptyString
     | TypeError =>
         exists c line g first,
           fs w !! name = Some c
           /\ first_copyright_line (readlines c) line g
           /\ String.length g <= INT_MAX_STR_DIGITS
           /\ contains HOLDER line = false
           /\ head (readlines c) = Some first
           /\ contains GENERATED_MARKER first = true
     end.
Proof.
  split.
  - intros H. pose proof (update_raise_keeps_world _ _ _ _ _ H) as ->.
    split; [reflexivity |].
    destruct (fs w !! name) as [c|] eqn:Hfs.
    2: { rewrite update_missing in H by assumption. now injection H as <-. }
    destruct (scan year (take 5 (readlines c))) as [e' | [[|] j]] eqn:Hs.
    + rewrite (update_scan_raised _ _ _ _ _ Hfs Hs) in H. injection H as <-.
      apply scan_raised_first_line in Hs as (-> & line & g & Hfirst & Hlen).
      now exists c, line, g.
    + destruct j.
      { rewrite (update_noop _ _ _ _ Hfs Hs) in H. discriminate. }
      rewrite (update_single _ _ _ _ Hfs Hs) in H.
      apply scan_true_first_line in Hs as (line & g & Hfirst & Hlen & Hh).
      destruct (readlines c) as [|first rest] eqn:Hread.
      { destruct Hfirst as (pre & post & Hx & _). now destruct pre. }
      destruct (contains GENERATED_MARKER first) eqn:Hm.
      * rewrite replace_str_marker in H by assumption. injection H as <-.
        exists c, line, g, first. rewrite Hread. auto 10.
      * rewrite replace_str_plain in H by assumption. discriminate.
    + rewrite (update_full _ _ _ _ _ Hfs Hs) in H.
      destruct (readlines c) as [|first rest] eqn:Hread.
      * injection H as <-. apply readlines_nil in Hread. now subst c.
      * destruct (contains GENERATED_MARKER first) eqn:Hm.
        -- rewrite replace_list_marker in H by assumption. discriminate.
        -- rewrite replace_list_plain in H by assumption. discriminate.
  - intros [-> He]. destruct e.
    + now apply update_missing.
    + now apply update_on_empty.
    + destruct He as (c & line & g & first & Hfs & Hfirst & Hlen & Hh
                      & Hhead & Hm).
      pose proof (first_copyright_line_scan year _ _ _ Hfirst) as Hs.
      rewrite Hh, (int_short g Hlen) in Hs.
      rewrite (update_single _ _ _ _ Hfs Hs).
      destruct (readlines c) as [|l rest]; [discriminate |].
      injection Hhead as ->. now rewrite replace_str_marker.
    + destruct He as (c & line & g & Hfs & Hfirst & Hlen).
      apply update_scan_raised with c; [assumption |].
      apply scan_raised_first_line. split; [reflexivity |].
      now exists line, g.
Qed.
